(** * mega-gofilebot: the admin store, the progress bar and the transfer
    pipeline of [main.py], embedded in Rocq.

    Python values are modelled as the program uses them:
    - [int] as [Z];
    - [str] as the list of its Unicode code points;
    - [float] as IEEE 754 binary64, with the operations of [SpecFloat];
    - [set] of ints as [gset Z];
    - a raised exception as the [inl] side of a sum, carrying [str(e)];
    - the two background threads and the polling coroutine as step
      functions, interleaved by a list of events.

    What the outside world does (the Mega client, the Gofile server, the
    file system, the scheduler) is an input of the model. Logging is left
    out. Calls to the chat are taken to succeed, except the edit that
    shows an error, which has a fallback in the source. *)

From Stdlib Require Import ZArith List String Ascii Lia DecimalString Sorted.
From Stdlib.Floats Require Import SpecFloat.
From stdpp Require Import base decidable list gmap sets.
Import ListNotations.

Local Open Scope Z_scope.

(* ===================================================================== *)
(** ** Python primitives used by [main.py] *)
(* ===================================================================== *)

(** A Python [str]: its code points, in order. *)
Abbreviation pystr := (list N).

(** A string literal of the source (ASCII text). *)
Definition lit (s : string) : pystr :=
  List.map N_of_ascii (list_ascii_of_string s).

(** The two glyphs of the progress bar: U+2B50 and U+2606. *)
Definition STAR : N := 0x2B50%N.
Definition HOLLOW : N := 0x2606%N.

(** [s.startswith(p)]. *)
Fixpoint startswith (s p : pystr) {struct p} : bool :=
  match p, s with
  | [], _ => true
  | _ :: _, [] => false
  | c :: p', d :: s' => (c =? d)%N && startswith s' p'
  end.

(** ["c" * n] for a one-character string: empty when [n <= 0]. *)
Definition str_mul (c : N) (n : Z) : pystr := List.repeat c (Z.to_nat n).

(** [str(n)] for an int, as an f-string renders it. *)
Definition str_of_int (n : Z) : pystr := lit (NilZero.string_of_int (Z.to_int n)).

(** [sep.join(parts)]. *)
Fixpoint join (sep : pystr) (parts : list pystr) : pystr :=
  match parts with
  | [] => []
  | [p] => p
  | p :: rest => p ++ sep ++ join sep rest
  end.

(** Number of occurrences of a code point: [s.count(c)]. *)
Definition count (c : N) (s : pystr) : nat := List.count_occ N.eq_dec s c.

(** *** Floats: binary64 *)

Definition prec : Z := 53.
Definition emax : Z := 1024.
Abbreviation float := spec_float.

(** [float(n)]: the nearest double (exact below 2^53, the only sizes the
    program meets); an int too large for a double is an [OverflowError],
    which shows here as an infinity. *)
Definition float_of_int (n : Z) : float := binary_normalize prec emax n 0 false.

(** [a / b] on two ints: true division, [ZeroDivisionError] when [b = 0].
    For operands below 2^53 the correctly rounded quotient is the IEEE
    quotient of the two doubles. *)
Definition truediv (a b : Z) : option float :=
  if b =? 0 then None else Some (SFdiv prec emax (float_of_int a) (float_of_int b)).

(** [x * n] for a float and an int. *)
Definition fmul_int (x : float) (n : Z) : float := SFmul prec emax x (float_of_int n).

(** [int(x)]: truncation towards zero; an infinity or a NaN raises. *)
Definition int_of_float (x : float) : option Z :=
  match x with
  | S754_zero _ => Some 0
  | S754_finite s m e =>
      let a := match e with
               | Z0 => Zpos m
               | Zpos p => Zpos m * Z.pow_pos 2 p
               | Zneg p => Zpos m / Z.pow_pos 2 p
               end in
      Some (if s then - a else a)
  | S754_infinity _ | S754_nan => None
  end.

(* ===================================================================== *)
(** ** [create_progress_bar] (main.py, lines 38-43) *)
(* ===================================================================== *)

(** [None] stands for an exception out of the float conversion. *)
Definition create_progress_bar (percentage : Z) (width : Z) : option pystr :=
  match truediv (width * percentage) 100 with
  | None => None
  | Some q =>
      match int_of_float q with
      | None => None
      | Some filled =>
          let empty := width - filled in
          let progress := str_mul STAR filled ++ str_mul HOLLOW empty in
          Some (lit "[" ++ progress ++ lit "] " ++ str_of_int percentage ++ lit "%")
      end
  end.

(** The default argument [width=20]. *)
Definition default_width : Z := 20.

(** [min(100, int(current / total * 100))]: the percentage both polling
    loops compute (lines 317 and 409). [None] stands for an exception. *)
Definition percent_of (current total : Z) : option Z :=
  match truediv current total with
  | None => None
  | Some q =>
      match int_of_float (fmul_int q 100) with
      | None => None
      | Some p => Some (Z.min 100 p)
      end
  end.

(** [progress != last_update and progress % 5 == 0] (lines 320 and 412);
    Python's [%] takes the sign of the divisor, as [Z.modulo] does. *)
Definition significant (progress last_update : Z) : bool :=
  negb (progress =? last_update) && (progress mod 5 =? 0).

(* ===================================================================== *)
(** ** The admin store and its two commands (lines 34-36, 113-223) *)
(* ===================================================================== *)

(** The two module-level sets. *)
Record admin_store := {
  ADMINS : gset Z;
  ADDITIONAL_ADMINS : gset Z
}.

(** What an admin command answers. *)
Inductive admin_reply :=
| Access_denied                              (* lines 120-125, 176-181 *)
| Usage                                      (* lines 130-133, 186-189 *)
| Already_main_admin                         (* line 141 *)
| Already_regular_admin (new_admin_id : Z)   (* lines 145-148 *)
| Added (new_admin_id : Z) (regular : gset Z) (* lines 154-159 *)
| Cannot_remove_main_admin                   (* line 197 *)
| Not_regular_admin (target_id : Z)          (* lines 201-204 *)
| Removed (target_id : Z) (regular : gset Z) (* lines 210-215 *)
| Invalid_user_id.                           (* lines 163-166, 219-222 *)

(** A handler either answers or lets an exception escape. *)
Inductive handled :=
| Replied (r : admin_reply)
| Escaped_KeyError.

(** [s.remove(x)]: [KeyError] when [x] is absent. *)
Definition set_remove (x : Z) (s : gset Z) : option (gset Z) :=
  if decide (x ∈ s) then Some (s ∖ {[ x ]}) else None.

Section Admin.

(** [MAIN_ADMIN_ID], read from the environment at import time. *)
Variable MAIN_ADMIN_ID : Z.

(** [int(s)] on a command argument; [None] is [ValueError]. The builtin
    is not part of the repository, so it is a parameter. *)
Variable int_of_str : pystr -> option Z.

(** Lines 35-36. *)
Definition initial_store : admin_store :=
  {| ADMINS := {[ MAIN_ADMIN_ID ]}; ADDITIONAL_ADMINS := ∅ |}.

(** [user_id in ADMINS]: the access check of [/start] and [/gofile]
    (lines 76 and 230). *)
Definition is_admin (st : admin_store) (user_id : Z) : bool :=
  bool_decide (user_id ∈ ADMINS st).

(** [add_admin] (lines 113-167). *)
Definition add_admin (user_id : Z) (args : list pystr) (st : admin_store)
  : admin_store * handled :=
  if negb (user_id =? MAIN_ADMIN_ID) then (st, Replied Access_denied)
  else match args with
  | [] => (st, Replied Usage)
  | a :: _ =>
      match int_of_str a with
      | None => (st, Replied Invalid_user_id)
      | Some new_admin_id =>
          if new_admin_id =? MAIN_ADMIN_ID then (st, Replied Already_main_admin)
          else if bool_decide (new_admin_id ∈ ADDITIONAL_ADMINS st)
          then (st, Replied (Already_regular_admin new_admin_id))
          else
            let additional := ADDITIONAL_ADMINS st ∪ {[ new_admin_id ]} in
            let admins := ADMINS st ∪ {[ new_admin_id ]} in
            ({| ADMINS := admins; ADDITIONAL_ADMINS := additional |},
             Replied (Added new_admin_id additional))
      end
  end.

(** [remove_admin] (lines 169-223). [ADDITIONAL_ADMINS.remove] has
    already happened when [ADMINS.remove] raises. *)
Definition remove_admin (user_id : Z) (args : list pystr) (st : admin_store)
  : admin_store * handled :=
  if negb (user_id =? MAIN_ADMIN_ID) then (st, Replied Access_denied)
  else match args with
  | [] => (st, Replied Usage)
  | a :: _ =>
      match int_of_str a with
      | None => (st, Replied Invalid_user_id)
      | Some target_id =>
          if target_id =? MAIN_ADMIN_ID then (st, Replied Cannot_remove_main_admin)
          else if negb (bool_decide (target_id ∈ ADDITIONAL_ADMINS st))
          then (st, Replied (Not_regular_admin target_id))
          else
            let additional := ADDITIONAL_ADMINS st ∖ {[ target_id ]} in
            match set_remove target_id (ADMINS st) with
            | None =>
                ({| ADMINS := ADMINS st; ADDITIONAL_ADMINS := additional |},
                 Escaped_KeyError)
            | Some admins =>
                ({| ADMINS := admins; ADDITIONAL_ADMINS := additional |},
                 Replied (Removed target_id additional))
            end
      end
  end.

(** The admin commands a chat can send, and the store after a sequence
    of them. *)
Inductive admin_command :=
| Cmd_admin (user_id : Z) (args : list pystr)
| Cmd_remove (user_id : Z) (args : list pystr).

Definition exec_command (st : admin_store) (c : admin_command) : admin_store :=
  match c with
  | Cmd_admin u args => fst (add_admin u args st)
  | Cmd_remove u args => fst (remove_admin u args st)
  end.

Definition run_commands (cs : list admin_command) : admin_store :=
  List.fold_left exec_command cs initial_store.

End Admin.

(* ===================================================================== *)
(** ** [handle_gofile]: what the chat and the network see (lines 225-452) *)
(* ===================================================================== *)

(** A raised exception, as its [str(e)]. *)
Abbreviation exn := pystr.

(** The message templates of [handle_gofile]. *)
Inductive text :=
| T_access_denied (main_admin : Z)                        (* lines 231-236 *)
| T_usage                                                 (* lines 241-244 *)
| T_invalid_link                                          (* lines 251-255 *)
| T_starting_download                                     (* lines 261-265 *)
| T_downloading (file_name progress_bar : pystr)          (* lines 322-326 *)
| T_starting_upload                                       (* lines 339-343 *)
| T_uploading (file_name progress_bar : pystr)            (* lines 414-418 *)
| T_upload_successful (file_name download_url : pystr)    (* lines 431-438 *)
| T_error (message : exn).                                (* lines 444-452 *)

(** The calls that leave the process, in the order they are made. *)
Inductive effect :=
| Reply (t : text)                      (* update.message.reply_text *)
| Edit (t : text)                       (* status_msg.edit_text *)
| Edit_failed (t : text)                (* an edit_text call that raised *)
| Mega_get_public_file (link : pystr)   (* line 275 *)
| Mega_download_url (link : pystr)      (* line 290 *)
| Http_get_servers                      (* line 348 *)
| Http_post_upload (url file_name : pystr). (* line 380 *)

Definition is_network_call (e : effect) : bool :=
  match e with
  | Mega_get_public_file _ | Mega_download_url _
  | Http_get_servers | Http_post_upload _ _ => true
  | Reply _ | Edit _ | Edit_failed _ => false
  end.

(** Line 250. *)
Definition valid_mega_link (mega_link : pystr) : bool :=
  startswith mega_link (lit "https://mega.nz/")
  || startswith mega_link (lit "https://mega.io/").

(** *** The download phase (lines 280-333)

    [download_thread] and the polling loop of the coroutine share
    [downloaded] and [download_complete]. Each runs one statement at a
    time; an event says who moves next, or what the world does. *)

(** Where [download_thread] stands. *)
Inductive dl_worker :=
| W_start           (* started, before line 290 *)
| W_downloading     (* inside mega.download_url *)
| W_succeeded       (* line 291 passed, line 292 next *)
| W_failed          (* in the handler, line 295 next *)
| W_marked          (* line 296 done, line 297 next *)
| W_exited.         (* the thread is over *)

(** Where the coroutine stands. *)
Inductive dl_poller :=
| P_test                        (* line 307 *)
| P_sleep                       (* line 308 *)
| P_sample                      (* lines 309-311 *)
| P_store (current_size : Z)    (* lines 313-314 *)
| P_report                      (* lines 316-328 *)
| P_gate                        (* line 331 *)
| P_proceed                     (* line 335 reached *)
| P_raised (e : exn).           (* an exception left the loop or the gate *)

Inductive dl_event :=
| Dl_disk (n : Z)          (* the files of temp_dir now hold n bytes *)
| Dl_url_returns           (* mega.download_url returns *)
| Dl_url_raises (e : exn)  (* mega.download_url raises *)
| Dl_worker                (* the thread runs its next statement *)
| Dl_poller.               (* the coroutine runs its next statement *)

Record dl_config := Dl_config {
  downloaded : Z;
  download_complete : bool;
  dir_size : Z;
  dl_thread : dl_worker;
  dl_loop : dl_poller;
  dl_last_update : Z;
  dl_effects : list effect
}.

Definition dl_set_thread (c : dl_config) (t : dl_worker) : dl_config :=
  Dl_config (downloaded c) (download_complete c) (dir_size c) t (dl_loop c)
            (dl_last_update c) (dl_effects c).

Definition dl_set_loop (c : dl_config) (p : dl_poller) : dl_config :=
  Dl_config (downloaded c) (download_complete c) (dir_size c) (dl_thread c) p
            (dl_last_update c) (dl_effects c).

Definition dl_set_downloaded (c : dl_config) (n : Z) : dl_config :=
  Dl_config n (download_complete c) (dir_size c) (dl_thread c) (dl_loop c)
            (dl_last_update c) (dl_effects c).

Definition dl_set_complete (c : dl_config) : dl_config :=
  Dl_config (downloaded c) true (dir_size c) (dl_thread c) (dl_loop c)
            (dl_last_update c) (dl_effects c).

Definition dl_set_dir_size (c : dl_config) (n : Z) : dl_config :=
  Dl_config (downloaded c) (download_complete c) n (dl_thread c) (dl_loop c)
            (dl_last_update c) (dl_effects c).

Definition dl_emit (c : dl_config) (e : effect) : dl_config :=
  Dl_config (downloaded c) (download_complete c) (dir_size c) (dl_thread c)
            (dl_loop c) (dl_last_update c) (dl_effects c ++ [e]).

Definition dl_set_last_update (c : dl_config) (p : Z) : dl_config :=
  Dl_config (downloaded c) (download_complete c) (dir_size c) (dl_thread c)
            (dl_loop c) p (dl_effects c).

(** The message of an exception out of the float arithmetic; its wording
    plays no part below. *)
Definition float_error : exn := lit "OverflowError".

(** Line 333. *)
Definition download_failed : exn := lit "Download failed".

Section DownloadPhase.

(** [lock] is an [asyncio.Lock], and both threads enter it with a plain
    [with] (lines 295 and 390). Whether that statement runs its block or
    raises is decided by the asyncio library: [true] is for "runs the
    block". *)
Variable sync_with_lock : bool.

Variables (mega_link : pystr) (total_size : Z) (file_name : pystr).

(** Lines 285-297, one statement at a time. *)
Definition download_thread_step (c : dl_config) : dl_config :=
  match dl_thread c with
  | W_start => dl_set_thread (dl_emit c (Mega_download_url mega_link)) W_downloading
  | W_downloading => c
  | W_succeeded => dl_set_thread (dl_set_complete c) W_exited
  | W_failed =>
      if sync_with_lock
      then dl_set_thread (dl_set_downloaded c (-1)) W_marked
      else dl_set_thread c W_exited
  | W_marked => dl_set_thread (dl_set_complete c) W_exited
  | W_exited => c
  end.

(** Lines 316-328; it reads the shared [downloaded]. *)
Definition dl_report (c : dl_config) : dl_config :=
  if total_size >? 0 then
    match percent_of (downloaded c) total_size with
    | None => dl_set_loop c (P_raised float_error)
    | Some progress =>
        if significant progress (dl_last_update c) then
          match create_progress_bar progress default_width with
          | None => dl_set_loop c (P_raised float_error)
          | Some progress_bar =>
              dl_set_loop
                (dl_set_last_update
                   (dl_emit c (Edit (T_downloading file_name progress_bar)))
                   progress)
                P_test
          end
        else dl_set_loop c P_test
    end
  else dl_set_loop c P_test.

(** Lines 307-333, one statement at a time. *)
Definition dl_poller_step (c : dl_config) : dl_config :=
  match dl_loop c with
  | P_test => dl_set_loop c (if download_complete c then P_gate else P_sleep)
  | P_sleep => dl_set_loop c P_sample
  | P_sample => dl_set_loop c (P_store (dir_size c))
  | P_store current_size => dl_set_loop (dl_set_downloaded c current_size) P_report
  | P_report => dl_report c
  | P_gate =>
      dl_set_loop c (if downloaded c =? -1 then P_raised download_failed else P_proceed)
  | P_proceed | P_raised _ => c
  end.

Definition dl_step (c : dl_config) (ev : dl_event) : dl_config :=
  match ev with
  | Dl_disk n => dl_set_dir_size c n
  | Dl_url_returns =>
      match dl_thread c with W_downloading => dl_set_thread c W_succeeded | _ => c end
  | Dl_url_raises _ =>
      match dl_thread c with W_downloading => dl_set_thread c W_failed | _ => c end
  | Dl_worker => download_thread_step c
  | Dl_poller => dl_poller_step c
  end.

Definition dl_run (evs : list dl_event) (c : dl_config) : dl_config :=
  List.fold_left dl_step evs c.

(** Lines 281-306: the state when the loop is first reached. The thread
    has been started but has not run yet. *)
Definition dl_init (effects : list effect) : dl_config :=
  Dl_config 0 false 0 W_start P_test 0 effects.

(** The loop of lines 306-328 on its own: one iteration per sampled
    directory size, while the download is still running. It returns the
    percents of the edits made, oldest first, and [last_update]; [None]
    stands for an exception out of the loop. *)
Fixpoint track_download (samples : list Z) (last_update : Z)
  : option (list Z * Z) :=
  match samples with
  | [] => Some ([], last_update)
  | current_size :: rest =>
      if total_size >? 0 then
        match percent_of current_size total_size with
        | None => None
        | Some progress =>
            if significant progress last_update then
              match create_progress_bar progress default_width with
              | None => None
              | Some _ =>
                  match track_download rest progress with
                  | None => None
                  | Some (edits, l) => Some (progress :: edits, l)
                  end
              end
            else track_download rest last_update
        end
      else track_download rest last_update
  end.

End DownloadPhase.

(** *** The upload phase (lines 353-427) *)

(** The JSON body of the upload answer, as far as the program reads it. *)
Record gofile_data := {
  data_message : option pystr;        (* data["message"] *)
  data_downloadPage : option pystr    (* data["downloadPage"] *)
}.

Record gofile_body := {
  body_status : option pystr;         (* body["status"] *)
  body_data : option gofile_data      (* body["data"] *)
}.

(** What [requests.post] returns. *)
Record response := {
  http_error : option exn;            (* what raise_for_status() raises *)
  resp_json : exn + gofile_body       (* what json() gives *)
}.

(** Where [upload_thread] stands. *)
Inductive up_worker :=
| U_start                       (* started, before line 376 *)
| U_posting                     (* inside requests.post *)
| U_failed (e : exn)            (* in the handler, line 390 next *)
| U_marked (e : exn)            (* line 391 done, line 392 next *)
| U_returned (body : gofile_body) (* line 387: the thread returned *)
| U_raised (e : exn)            (* line 393: the thread re-raised *)
| U_died.                       (* the handler itself raised at line 390 *)

(** Where the coroutine stands. *)
Inductive up_poller :=
| Q_test                            (* line 403 *)
| Q_sleep                           (* line 404 *)
| Q_read                            (* lines 405-406 *)
| Q_report (current_uploaded : Z)   (* lines 408-420 *)
| Q_exited                          (* line 423 reached *)
| Q_raised (e : exn).               (* an exception left the loop *)

Inductive up_event :=
| Up_open_raises (e : exn)        (* open(downloaded_path, 'rb') raises *)
| Up_read (n : Z)                 (* requests reads a chunk of n bytes *)
| Up_post_returns (r : response)  (* requests.post returns *)
| Up_post_raises (e : exn)        (* requests.post raises *)
| Up_worker                       (* the thread runs its next statement *)
| Up_poller.                      (* the coroutine runs its next statement *)

Record up_config := Up_config {
  uploaded : Z;                   (* the variable of handle_gofile *)
  pf_uploaded : Z;                (* ProgressFile.uploaded *)
  upload_complete : bool;
  up_thread : up_worker;
  up_loop : up_poller;
  up_last_update : Z;
  up_effects : list effect
}.

Definition up_set_thread (c : up_config) (t : up_worker) : up_config :=
  Up_config (uploaded c) (pf_uploaded c) (upload_complete c) t (up_loop c)
            (up_last_update c) (up_effects c).

Definition up_set_loop (c : up_config) (q : up_poller) : up_config :=
  Up_config (uploaded c) (pf_uploaded c) (upload_complete c) (up_thread c) q
            (up_last_update c) (up_effects c).

Definition up_set_complete (c : up_config) : up_config :=
  Up_config (uploaded c) (pf_uploaded c) true (up_thread c) (up_loop c)
            (up_last_update c) (up_effects c).

Definition up_emit (c : up_config) (e : effect) : up_config :=
  Up_config (uploaded c) (pf_uploaded c) (upload_complete c) (up_thread c)
            (up_loop c) (up_last_update c) (up_effects c ++ [e]).

Definition up_set_last_update (c : up_config) (p : Z) : up_config :=
  Up_config (uploaded c) (pf_uploaded c) (upload_complete c) (up_thread c)
            (up_loop c) p (up_effects c).

(** [ProgressFile.read] (lines 365-371) for a chunk of [n] bytes. *)
Definition ProgressFile_read (c : up_config) (n : Z) : up_config :=
  if n >? 0 then
    Up_config (pf_uploaded c + n) (pf_uploaded c + n) (upload_complete c)
              (up_thread c) (up_loop c) (up_last_update c) (up_effects c)
  else c.

Section UploadPhase.

Variable sync_with_lock : bool.
Variables (upload_url : pystr) (file_size : Z) (file_name : pystr).

(** Lines 374-393, one statement at a time. The success path returns at
    line 387 and touches neither [uploaded] nor [upload_complete]; in
    the handler, [uploaded = -1] binds a local of [upload_thread] (the
    function has no [nonlocal]), so the shared variable keeps its
    value. At [U_start] the file opens, unless [Up_open_raises] came
    first. *)
Definition upload_thread_step (c : up_config) : up_config :=
  match up_thread c with
  | U_start => up_set_thread (up_emit c (Http_post_upload upload_url file_name)) U_posting
  | U_posting => c
  | U_failed e => up_set_thread c (if sync_with_lock then U_marked e else U_died)
  | U_marked e => up_set_thread (up_set_complete c) (U_raised e)
  | U_returned _ | U_raised _ | U_died => c
  end.

(** Lines 380-387 once [requests.post] has returned. *)
Definition after_post (r : response) : up_worker :=
  match http_error r with
  | Some e => U_failed e
  | None =>
      match resp_json r with
      | inl e => U_failed e
      | inr body => U_returned body
      end
  end.

(** Lines 408-420. *)
Definition up_report (c : up_config) (current_uploaded : Z) : up_config :=
  if file_size >? 0 then
    match percent_of current_uploaded file_size with
    | None => up_set_loop c (Q_raised float_error)
    | Some progress =>
        if significant progress (up_last_update c) then
          match create_progress_bar progress default_width with
          | None => up_set_loop c (Q_raised float_error)
          | Some progress_bar =>
              up_set_loop
                (up_set_last_update
                   (up_emit c (Edit (T_uploading file_name progress_bar)))
                   progress)
                Q_test
          end
        else up_set_loop c Q_test
    end
  else up_set_loop c Q_test.

(** Lines 403-420, one statement at a time. *)
Definition up_poller_step (c : up_config) : up_config :=
  match up_loop c with
  | Q_test => up_set_loop c (if upload_complete c then Q_exited else Q_sleep)
  | Q_sleep => up_set_loop c Q_read
  | Q_read => up_set_loop c (Q_report (uploaded c))
  | Q_report current_uploaded => up_report c current_uploaded
  | Q_exited | Q_raised _ => c
  end.

Definition up_step (c : up_config) (ev : up_event) : up_config :=
  match ev with
  | Up_open_raises e =>
      match up_thread c with U_start => up_set_thread c (U_failed e) | _ => c end
  | Up_read n =>
      match up_thread c with U_posting => ProgressFile_read c n | _ => c end
  | Up_post_returns r =>
      match up_thread c with U_posting => up_set_thread c (after_post r) | _ => c end
  | Up_post_raises e =>
      match up_thread c with U_posting => up_set_thread c (U_failed e) | _ => c end
  | Up_worker => upload_thread_step c
  | Up_poller => up_poller_step c
  end.

Definition up_run (evs : list up_event) (c : up_config) : up_config :=
  List.fold_left up_step evs c.

(** Lines 356-402. *)
Definition up_init (effects : list effect) : up_config :=
  Up_config 0 0 false U_start Q_test 0 effects.

End UploadPhase.

(** Line 424: [upload_task] is a [threading.Thread], which has no
    [result] attribute, so the call raises [AttributeError]. *)
Definition thread_result : exn + gofile_body :=
  inl (lit "'Thread' object has no attribute 'result'").

Definition unknown_error : pystr := lit "Unknown error".

(** [upload_resp.get('data', {}).get('message', 'Unknown error')]. *)
Definition upstream_message (upload_resp : gofile_body) : pystr :=
  match body_data upload_resp with
  | None => unknown_error
  | Some d => default unknown_error (data_message d)
  end.

(** Lines 425-438, given what line 424 produced: the error to raise, or
    the final edit. A missing key is a [KeyError] on that key. *)
Definition report_upload (file_name : pystr) (upload_resp : exn + gofile_body)
  : exn + effect :=
  match upload_resp with
  | inl e => inl e
  | inr body =>
      match body_status body with
      | None => inl (lit "'status'")
      | Some s =>
          if negb (bool_decide (s = lit "ok"))
          then inl (lit "Gofile error: " ++ upstream_message body)
          else
            match body_data body with
            | None => inl (lit "'data'")
            | Some d =>
                match data_downloadPage d with
                | None => inl (lit "'downloadPage'")
                | Some download_url =>
                    inr (Edit (T_upload_successful file_name download_url))
                end
            end
      end
  end.

(** *** The whole handler *)

(** What the world outside the process does during one [/gofile]. *)
Record world := {
  sync_with_lock : bool;
  get_public_file : pystr -> exn + (Z * pystr);
      (* mega.get_public_file(link): file_info['s'], file_info['at']['n'] *)
  download_events : list dl_event;
  get_servers : exn + pystr;
      (* lines 348-350: the name of the first server *)
  getsize_downloaded : exn + Z;
      (* line 355: os.path.getsize(downloaded_path) *)
  upload_events : list up_event;
  error_edit_ok : bool
      (* does the edit of line 444 succeed? *)
}.

(** How far the handler got with the events it was given. *)
Inductive status :=
| Returned
| In_download_phase
| In_upload_phase.

(** Lines 441-452: the handler of the [try] block. Apart from this edit,
    calls to the chat are taken to succeed. *)
Definition on_exception (w : world) (effects : list effect) (e : exn)
  : list effect * status :=
  if error_edit_ok w
  then (effects ++ [Edit (T_error e)], Returned)
  else (effects ++ [Edit_failed (T_error e); Reply (T_error e)], Returned).

(** Lines 335-439. *)
Definition upload_part (w : world) (file_name : pystr) (effects : list effect)
  : list effect * status :=
  let effects := effects ++ [Edit T_starting_upload; Http_get_servers] in
  match get_servers w with
  | inl e => on_exception w effects e
  | inr server =>
      let upload_url := lit "https://" ++ server ++ lit ".gofile.io/uploadFile" in
      match getsize_downloaded w with
      | inl e => on_exception w effects e
      | inr file_size =>
          let u := up_run (sync_with_lock w) upload_url file_size file_name
                          (upload_events w) (up_init effects) in
          match up_loop u with
          | Q_raised e => on_exception w (up_effects u) e
          | Q_exited =>
              match report_upload file_name thread_result with
              | inl e => on_exception w (up_effects u) e
              | inr success => (up_effects u ++ [success], Returned)
              end
          | _ => (up_effects u, In_upload_phase)
          end
      end
  end.

(** Lines 259-439: the [try] block. *)
Definition transfer (w : world) (mega_link : pystr) : list effect * status :=
  let effects := [Reply T_starting_download; Mega_get_public_file mega_link] in
  match get_public_file w mega_link with
  | inl e => on_exception w effects e
  | inr (total_size, file_name) =>
      let c := dl_run (sync_with_lock w) mega_link total_size file_name
                      (download_events w) (dl_init effects) in
      match dl_loop c with
      | P_raised e => on_exception w (dl_effects c) e
      | P_proceed => upload_part w file_name (dl_effects c)
      | _ => (dl_effects c, In_download_phase)
      end
  end.

Section Handler.

Variable MAIN_ADMIN_ID : Z.

(** [handle_gofile] (lines 225-452). *)
Definition handle_gofile (st : admin_store) (user_id : Z) (args : list pystr)
                         (w : world) : list effect * status :=
  if negb (is_admin st user_id)
  then ([Reply (T_access_denied MAIN_ADMIN_ID)], Returned)
  else match args with
  | [] => ([Reply T_usage], Returned)
  | _ :: _ =>
      let mega_link := join (lit " ") args in
      if negb (valid_mega_link mega_link)
      then ([Reply T_invalid_link], Returned)
      else transfer w mega_link
  end.

End Handler.

(* ===================================================================== *)
(** ** The notifier, [/start] and [main] (lines 45-111 and 454-483) *)
(* ===================================================================== *)

(** [p in s] for two strings. *)
Fixpoint contains (s p : pystr) : bool :=
  match s with
  | [] => startswith [] p
  | _ :: s' => startswith s p || contains s' p
  end.

(** [s.replace(old, new)] for a non-empty [old]: the occurrences of [old]
    are replaced from left to right, without overlap. [skip] counts the
    characters of a replaced occurrence that are still to be passed. *)
Fixpoint replace_from (old new s : pystr) (skip : nat) : pystr :=
  match s with
  | [] => []
  | c :: s' =>
      match skip with
      | S k => replace_from old new s' k
      | O =>
          if startswith s old
          then new ++ replace_from old new s' (length old - 1)
          else c :: replace_from old new s' 0
      end
  end.

(** [s.replace(old, new)]; with an empty [old], [new] is put before every
    character and at the end. *)
Definition replace (s old new : pystr) : pystr :=
  match old with
  | [] => new ++ concat (List.map (fun c => c :: new) s)
  | _ :: _ => replace_from old new s 0
  end.

(** [', '.join(map(str, ADDITIONAL_ADMINS)) if ADDITIONAL_ADMINS else
    'None'] (lines 56, 92 and 213). Python iterates a set in an order of
    its own; [elements] stands for that order. *)
Definition regular_admins_text (additional : gset Z) : pystr :=
  if decide (additional = ∅) then lit "None"
  else join (lit ", ") (List.map str_of_int (elements additional)).

(** What [send_alive_notification] does for one admin, or instead. *)
Inductive notice :=
| Notified (chat_id : Z) (text : pystr)       (* lines 61-66 *)
| Notify_failed (chat_id : Z) (e : exn)       (* lines 67-68 *)
| No_admins_warning.                          (* lines 47-49 *)

(** Lines 59-68: the loop, with its [try] around every send. [send] is
    what [application.bot.send_message] does for a chat: [None] when it
    returns, [Some e] when it raises. *)
Fixpoint notify_each (send : Z -> option exn) (message : pystr)
                     (admins : list Z) : list notice :=
  match admins with
  | [] => []
  | admin_id :: rest =>
      match send admin_id with
      | None => Notified admin_id message
      | Some e => Notify_failed admin_id e
      end :: notify_each send message rest
  end.

(** The commands [main] registers a handler for, and the handlers. *)
Inductive callback := Cb_start | Cb_add_admin | Cb_remove_admin | Cb_handle_gofile.

Inductive update_filter :=
| Command (name : pystr)      (* CommandHandler(name, ...) *)
| Any_command.                (* MessageHandler(filters.COMMAND, ...) *)

(** The application [main] builds: its token and its handlers, in the
    order of lines 472-476. *)
Record application := {
  app_token : pystr;
  app_handlers : list (update_filter * callback)
}.

Definition accepts (f : update_filter) (command : pystr) : bool :=
  match f with
  | Command name => bool_decide (command = name)
  | Any_command => true
  end.

(** The library gives a command to the first handler that accepts it. *)
Fixpoint dispatch (handlers : list (update_filter * callback)) (command : pystr)
  : option callback :=
  match handlers with
  | [] => None
  | (f, cb) :: rest => if accepts f command then Some cb else dispatch rest command
  end.

(** A command message: who sent it, in which chat, the command (without
    its slash, as the library reads it) and [context.args]. *)
Record update := {
  effective_user : Z;
  effective_chat : Z;
  upd_command : pystr;
  context_args : list pystr
}.

(** What [/start] sends. *)
Inductive start_effect :=
| Send_animation (chat_id : Z) (animation caption : pystr)   (* lines 97-103 *)
| Send_animation_failed (chat_id : Z) (animation caption : pystr)
| Reply_markdown (text : pystr).                             (* lines 108-111 *)

Section Bot.

Variable MAIN_ADMIN_ID : Z.
Variable WELCOME_ANIMATION_URL : pystr.
Variable int_of_str : pystr -> option Z.

(** Lines 51-57. *)
Definition alive_message (st : admin_store) : pystr :=
  lit "Hey Arsynox Bot is Alive " ++ [0x1f973%N] ++ [10%N] ++ [10%N]
  ++ [0x2705%N] ++ lit " Bot is ready to process Mega links" ++ [10%N]
  ++ [0x2705%N] ++ lit " Admin management active (MAIN ADMIN ONLY)" ++ [10%N]
  ++ [0x1f451%N] ++ lit " Main Admin: " ++ str_of_int MAIN_ADMIN_ID ++ [10%N]
  ++ [0x1f465%N] ++ lit " Regular Admins: "
  ++ regular_admins_text (ADDITIONAL_ADMINS st).

(** [send_alive_notification] (lines 45-68). *)
Definition send_alive_notification (st : admin_store) (send : Z -> option exn)
  : list notice :=
  if decide (ADMINS st = ∅) then [No_admins_warning]
  else notify_each send (alive_message st) (elements (ADMINS st)).

(** Lines 77-83. *)
Definition restricted_caption : pystr :=
  [0x1f512%N] ++ lit " <b>Access Restricted</b>" ++ [10%N] ++ [10%N]
  ++ lit "You need to be an admin to use this bot." ++ [10%N]
  ++ lit "Contact the main admin for access:" ++ [10%N]
  ++ lit "<code>" ++ str_of_int MAIN_ADMIN_ID ++ lit "</code>" ++ [10%N] ++ [10%N]
  ++ [0x26a0%N] ++ [0xfe0f%N] ++ lit " Only the main admin can grant access".

(** Lines 85-93. *)
Definition admin_caption (st : admin_store) : pystr :=
  [0x1f680%N] ++ lit " <b>Mega to Gofile Uploader Bot</b>" ++ [10%N] ++ [10%N]
  ++ lit "Send <code>/gofile [mega_link]</code> to upload files" ++ [10%N] ++ [10%N]
  ++ [0x1f510%N] ++ lit " <b>Admin Management (MAIN ADMIN ONLY)</b>" ++ [10%N]
  ++ [0x2022%N] ++ lit " <code>/admin [user_id]</code> - Add regular admin" ++ [10%N]
  ++ [0x2022%N] ++ lit " <code>/remove [user_id]</code> - Remove regular admin"
  ++ [10%N] ++ [10%N]
  ++ [0x1f451%N] ++ lit " <b>Main Admin</b>: <code>" ++ str_of_int MAIN_ADMIN_ID
  ++ lit "</code>" ++ [10%N]
  ++ [0x1f465%N] ++ lit " <b>Regular Admins</b>: "
  ++ regular_admins_text (ADDITIONAL_ADMINS st).

(** Line 109: the caption of the fallback. *)
Definition markdown_fallback (caption : pystr) : pystr :=
  replace (replace caption (lit "<b>") (lit "**")) (lit "</b>") (lit "**").

(** [start] (lines 70-111). [animation_error] is what [send_animation]
    raises, if it raises. *)
Definition start (st : admin_store) (user_id chat_id : Z)
                 (animation_error : option exn) : list start_effect :=
  let caption :=
    if negb (is_admin st user_id) then restricted_caption else admin_caption st in
  match animation_error with
  | None => [Send_animation chat_id WELCOME_ANIMATION_URL caption]
  | Some _ =>
      [Send_animation_failed chat_id WELCOME_ANIMATION_URL caption;
       Reply_markdown (markdown_fallback caption)]
  end.

(** Lines 472-476. *)
Definition registered_handlers : list (update_filter * callback) :=
  [ (Command (lit "start"), Cb_start);
    (Command (lit "admin"), Cb_add_admin);
    (Command (lit "remove"), Cb_remove_admin);
    (Command (lit "gofile"), Cb_handle_gofile);
    (Any_command, Cb_start) ].

(** [main] (lines 454-483) up to [run_polling]: the two checks, then the
    application. [BOT_TOKEN] is what [os.getenv] gave. *)
Definition main (BOT_TOKEN : option pystr) : exn + application :=
  match BOT_TOKEN with
  | None | Some [] => inl (lit "BOT_TOKEN environment variable not set!")
  | Some token =>
      if MAIN_ADMIN_ID =? 0
      then inl (lit "MAIN_ADMIN_ID environment variable not set or invalid!")
      else inr {| app_token := token; app_handlers := registered_handlers |}
  end.

(** Lines 478-483: once [main] has built the application, [run_polling]
    calls [post_init], which is [send_alive_notification], on the sets as
    the module created them. *)
Definition startup (BOT_TOKEN : option pystr) (send : Z -> option exn)
  : exn + list notice :=
  match main BOT_TOKEN with
  | inl e => inl e
  | inr _ => inr (send_alive_notification (initial_store MAIN_ADMIN_ID) send)
  end.

(** The admin sets after one command message: only [add_admin] and
    [remove_admin] write them. *)
Definition on_update (st : admin_store) (u : update) : admin_store :=
  match dispatch registered_handlers (upd_command u) with
  | Some Cb_add_admin =>
      fst (add_admin MAIN_ADMIN_ID int_of_str (effective_user u) (context_args u) st)
  | Some Cb_remove_admin =>
      fst (remove_admin MAIN_ADMIN_ID int_of_str (effective_user u) (context_args u) st)
  | Some Cb_start | Some Cb_handle_gofile | None => st
  end.

Definition on_updates (us : list update) : admin_store :=
  List.fold_left on_update us (initial_store MAIN_ADMIN_ID).

End Bot.

(* ===================================================================== *)
(** ** Vocabulary of the properties *)
(* ===================================================================== *)

(** The shape of a bar for [percentage]: an opening bracket, [filled]
    stars, [default_width - filled] hollow stars, a closing bracket and a
    space, then the percentage in decimal and a percent sign. *)
Definition bar_of (percentage filled : Z) : pystr :=
  lit "[" ++ str_mul STAR filled ++ str_mul HOLLOW (default_width - filled)
  ++ lit "] " ++ str_of_int percentage ++ lit "%".

(** [create_progress_bar p] is [bar_of p] with floor(20 * p / 100) stars. *)
Definition bar_percent_ok (p : Z) : bool :=
  match create_progress_bar p default_width with
  | Some bar =>
      bool_decide (bar = bar_of p (default_width * p / 100))
      && (count STAR bar =? Z.to_nat (default_width * p / 100))%nat
      && (count HOLLOW bar =? Z.to_nat (default_width - default_width * p / 100))%nat
  | None => false
  end.

(** The percentages the specification tests. *)
Definition quarter_percents : list Z := [0; 25; 50; 75; 100].

(** What the specification says of the bar for [p]. *)
Definition quarter_bar_spec (p : Z) : Prop :=
  let filled := 20 * p / 100 in
  exists bar,
    create_progress_bar p 20 = Some bar
    /\ bar = lit "[" ++ List.repeat STAR (Z.to_nat filled)
                 ++ List.repeat HOLLOW (Z.to_nat (20 - filled))
                 ++ lit "] " ++ str_of_int p ++ lit "%"
    /\ count STAR bar = Z.to_nat filled
    /\ count HOLLOW bar = Z.to_nat (20 - filled)
    /\ (count STAR bar + count HOLLOW bar = 20)%nat
    /\ (p = 0 -> count STAR bar = 0%nat /\ count HOLLOW bar = 20%nat)
    /\ (p = 100 -> count STAR bar = 20%nat /\ count HOLLOW bar = 0%nat).

(** The full set is the main admin together with the regular admins, and
    the main admin is not a regular admin. *)
Definition store_inv (MAIN_ADMIN_ID : Z) (st : admin_store) : Prop :=
  ADMINS st = {[ MAIN_ADMIN_ID ]} ∪ ADDITIONAL_ADMINS st
  /\ MAIN_ADMIN_ID ∉ ADDITIONAL_ADMINS st.

(** A concrete reader of decimal ids for the examples: digits only. *)
Fixpoint digits_value (acc : Z) (s : pystr) : option Z :=
  match s with
  | [] => Some acc
  | c :: rest =>
      if ((48 <=? c) && (c <=? 57))%N
      then digits_value (10 * acc + Z.of_N (c - 48)) rest
      else None
  end.

(** [int] on a non-empty string of ASCII digits. *)
Definition decimal_id (s : pystr) : option Z :=
  match s with
  | [] => None
  | _ => digits_value 0 s
  end.

(** An event that does not make the upload fail: [requests.post] does not
    raise, and what it returns passes [raise_for_status] and [json]. *)
Definition upload_succeeds (ev : up_event) : bool :=
  match ev with
  | Up_open_raises _ | Up_post_raises _ => false
  | Up_post_returns r =>
      match after_post r with U_returned _ => true | _ => false end
  | Up_read _ | Up_worker | Up_poller => true
  end.

(** The event is set only by a thread that went through its handler, and
    the loop is left only once the event is set. *)
Definition up_inv (c : up_config) : Prop :=
  (upload_complete c = true -> exists e, up_thread c = U_raised e)
  /\ (up_loop c = Q_exited -> upload_complete c = true).

(** The thread has not entered its handler. *)
Definition up_thread_fine (c : up_config) : Prop :=
  match up_thread c with
  | U_start | U_posting | U_returned _ => True
  | U_failed _ | U_marked _ | U_raised _ | U_died => False
  end.

(** The body [{"status": "error", "data": {"message": "quota exceeded"}}]. *)
Definition error_body : gofile_body :=
  {| body_status := Some (lit "error");
     body_data := Some {| data_message := Some (lit "quota exceeded");
                          data_downloadPage := None |} |}.

(** That body, sent with a successful HTTP status. *)
Definition error_response : response :=
  {| http_error := None; resp_json := inr error_body |}.

(** A run in which the download of 1000 bytes succeeds before the loop
    looks, the upload sends all the bytes and is answered with
    [error_response]; [more] is whatever happens afterwards. *)
Definition world_status_error (sync : bool) (more : list up_event) : world :=
  {| sync_with_lock := sync;
     get_public_file := fun _ => inr (1000, lit "a.bin");
     download_events :=
       [Dl_worker; Dl_disk 1000; Dl_url_returns; Dl_worker; Dl_poller; Dl_poller];
     get_servers := inr (lit "store1");
     getsize_downloaded := inr 1000;
     upload_events :=
       [Up_worker; Up_read 1000; Up_post_returns error_response] ++ more;
     error_edit_ok := true |}.

(** A run in which the download succeeds and [requests.post] raises after
    400 bytes, with a [with lock:] that runs its block. *)
Definition world_upload_raises : world :=
  {| sync_with_lock := true;
     get_public_file := fun _ => inr (1000, lit "a.bin");
     download_events :=
       [Dl_worker; Dl_disk 1000; Dl_url_returns; Dl_worker; Dl_poller; Dl_poller];
     get_servers := inr (lit "store1");
     getsize_downloaded := inr 1000;
     upload_events :=
       [ Up_worker;                       (* the thread enters requests.post *)
         Up_read 400;
         Up_post_raises (lit "timed out");
         Up_worker;                       (* lines 390-391 *)
         Up_worker;                       (* line 392: upload_complete.set() *)
         Up_poller ];                     (* line 403: the event is set *)
     error_edit_ok := true |}.

(** An effect that tells the user how the transfer ended. *)
Definition reports_outcome (e : effect) : bool :=
  match e with
  | Reply (T_error _) | Edit (T_error _) | Edit_failed (T_error _)
  | Reply (T_upload_successful _ _) | Edit (T_upload_successful _ _)
  | Edit_failed (T_upload_successful _ _) => true
  | _ => false
  end.

(** The upload thread has returned [body] after sending 1000 bytes of
    1000, and the coroutine is still in its loop. *)
Definition up_waiting (body : gofile_body) (c : up_config) : Prop :=
  up_thread c = U_returned body
  /\ upload_complete c = false
  /\ uploaded c = 1000
  /\ (up_loop c = Q_test \/ up_loop c = Q_sleep \/ up_loop c = Q_read
      \/ up_loop c = Q_report 1000)
  /\ forallb (fun e => negb (reports_outcome e)) (up_effects c) = true.

(** A transfer of a file of 1000 bytes whose download phase sees [evs]. *)
Definition world_download (sync : bool) (evs : list dl_event) : world :=
  {| sync_with_lock := sync;
     get_public_file := fun _ => inr (1000, lit "a.bin");
     download_events := evs;
     get_servers := inr (lit "store1");
     getsize_downloaded := inr 300;
     upload_events := [];
     error_edit_ok := true |}.

(** The download raises while the coroutine sleeps at line 308: the
    thread writes -1 and sets the event, then the coroutine wakes up,
    samples the 300 bytes on disk and stores them over the -1. *)
Definition race_events : list dl_event :=
  [ Dl_worker;                 (* the thread enters mega.download_url *)
    Dl_disk 300;               (* 300 bytes have been written *)
    Dl_poller;                 (* line 307: the event is not set *)
    Dl_url_raises (lit "connection reset");
    Dl_worker;                 (* lines 295-296: downloaded = -1 *)
    Dl_worker;                 (* line 297: download_complete.set() *)
    Dl_poller;                 (* line 308: the sleep ends *)
    Dl_poller;                 (* lines 309-311: current_size = 300 *)
    Dl_poller;                 (* lines 313-314: downloaded = 300 *)
    Dl_poller;                 (* lines 316-328: edit at 30% *)
    Dl_poller;                 (* line 307: the event is set *)
    Dl_poller ].               (* line 331: downloaded is not -1 *)

(** The download raises before the coroutine reaches line 307. *)
Definition early_failure_events : list dl_event :=
  [ Dl_worker; Dl_url_raises (lit "connection reset"); Dl_worker; Dl_worker;
    Dl_poller; Dl_poller ].

(** [mega.download_url] does not return normally. *)
Definition url_does_not_return (ev : dl_event) : bool :=
  match ev with
  | Dl_url_returns => false
  | Dl_disk _ | Dl_url_raises _ | Dl_worker | Dl_poller => true
  end.

(** The event is not set, the thread is not about to set it, and the
    coroutine has not left its loop. *)
Definition dl_waiting (c : dl_config) : Prop :=
  download_complete c = false
  /\ (dl_thread c = W_start \/ dl_thread c = W_downloading
      \/ dl_thread c = W_failed \/ dl_thread c = W_exited)
  /\ (dl_loop c = P_test \/ dl_loop c = P_sleep \/ dl_loop c = P_sample
      \/ (exists n, dl_loop c = P_store n) \/ dl_loop c = P_report
      \/ dl_loop c = P_raised float_error).

(** One iteration of the loop while the directory holds [s] bytes: the
    write to disk, then lines 307, 308, 309-311, 313-314 and 316-328. *)
Definition poll_once (s : Z) : list dl_event :=
  [Dl_disk s; Dl_poller; Dl_poller; Dl_poller; Dl_poller; Dl_poller].

(** The thread enters [mega.download_url]; then the loop runs once for
    each sampled size. *)
Definition poll_events (samples : list Z) : list dl_event :=
  Dl_worker :: concat (List.map poll_once samples).

(** The edit of lines 322-326 at percent [p]. *)
Definition download_edit (file_name : pystr) (p : Z) : effect :=
  Edit (T_downloading file_name (bar_of p (default_width * p / 100))).

(** 5, 10, ..., 100. *)
Definition every_five : list Z := List.map (fun k => 5 * Z.of_nat k) (List.seq 1 20).

(** 0, 50, 100, ..., 1000. *)
Definition samples_by_50 : list Z := List.map (fun k => 50 * Z.of_nat k) (List.seq 0 21).

(** A sampled size for a file of 1000 bytes. *)
Definition in_range (s : Z) : Prop := 0 <= s <= 1000.

(** The percentages of [k] and [k + 1] bytes out of 1000 exist, lie
    between 0 and 100 and do not decrease. *)
Definition percent_step_ok (k : Z) : bool :=
  match percent_of k 1000, percent_of (k + 1) 1000 with
  | Some p, Some q => (0 <=? p) && (p <=? q) && (q <=? 100)
  | _, _ => false
  end.

(** Edits at 0, 5, ..., 100, as the specification expects them. *)
Definition expected_edits (file_name : pystr) : list effect :=
  List.map (download_edit file_name) (0 :: every_five).

(** The effects of the download phase when the loop samples [samples]. *)
Definition download_effects (sync : bool) (link name : pystr) (samples : list Z)
  : list effect :=
  dl_effects (dl_run sync link 1000 name (poll_events samples) (dl_init [])).

(** The message that shows the link (lines 431-438), however it is sent. *)
Definition is_success (e : effect) : bool :=
  match e with
  | Reply (T_upload_successful _ _) | Edit (T_upload_successful _ _)
  | Edit_failed (T_upload_successful _ _) => true
  | _ => false
  end.

(** How lines 441-452 show the exception [e]. *)
Definition error_report (w : world) (e : exn) : list effect :=
  if error_edit_ok w then [Edit (T_error e)]
  else [Edit_failed (T_error e); Reply (T_error e)].

(** What the download phase emits: the call of the thread and the
    progress edits. *)
Definition dl_phase_effect (e : effect) : bool :=
  match e with
  | Mega_download_url _ | Edit (T_downloading _ _) => true
  | _ => false
  end.

(** What the upload phase emits. *)
Definition up_phase_effect (e : effect) : bool :=
  match e with
  | Http_post_upload _ _ | Edit (T_uploading _ _) => true
  | _ => false
  end.

(** The effects of the download phase since [base]: only effects of that
    phase, with the call of the thread once it has started. *)
Definition dl_shape (link : pystr) (base : list effect) (c : dl_config) : Prop :=
  exists rest,
    dl_effects c = base ++ rest
    /\ forallb dl_phase_effect rest = true
    /\ List.filter is_network_call rest
       = match dl_thread c with W_start => [] | _ => [Mega_download_url link] end.

(** The same for the upload phase. *)
Definition up_shape (url name : pystr) (base : list effect) (c : up_config) : Prop :=
  exists rest,
    up_effects c = base ++ rest
    /\ forallb up_phase_effect rest = true
    /\ (List.filter is_network_call rest = []
        \/ List.filter is_network_call rest = [Http_post_upload url name]
           /\ up_thread c <> U_start).

(** The calls to the network of a whole transfer, in their order. *)
Definition pipeline_calls (link url name : pystr) : list effect :=
  [Mega_get_public_file link; Mega_download_url link; Http_get_servers;
   Http_post_upload url name].

(** What a transfer that was started leaves behind: a trace without any
    report of the outcome, then the report of one error if the handler
    has returned. *)
Definition transfer_trace (w : world) (link : pystr) (r : list effect * status)
  : Prop :=
  exists body tail url name,
    fst r = Reply T_starting_download :: body ++ tail
    /\ forallb (fun e => negb (reports_outcome e)) body = true
    /\ List.filter is_network_call body `prefix_of` pipeline_calls link url name
    /\ (tail = [] /\ snd r <> Returned
        \/ exists e, tail = error_report w e /\ snd r = Returned).

(** The gate of lines 331-333 is reached only with the event set, the
    event is set only by a thread that is over, and line 335 is reached
    only with a counter other than -1. *)
Definition dl_gate_inv (c : dl_config) : Prop :=
  (dl_loop c = P_gate \/ dl_loop c = P_proceed
   \/ dl_loop c = P_raised download_failed -> download_complete c = true)
  /\ (download_complete c = true -> dl_thread c = W_exited)
  /\ (dl_loop c = P_proceed -> downloaded c <> -1)
  /\ (dl_loop c = P_raised download_failed -> downloaded c = -1).

(** Nothing goes wrong on the side of Mega: [mega.download_url] does not
    raise, and the directory never has a negative size. *)
Definition download_is_calm (ev : dl_event) : bool :=
  match ev with
  | Dl_url_raises _ => false
  | Dl_disk n => 0 <=? n
  | Dl_url_returns | Dl_worker | Dl_poller => true
  end.

(** No -1 is in sight: the thread is not in its handler, and every size
    seen or stored is at least 0. *)
Definition dl_calm (c : dl_config) : Prop :=
  0 <= downloaded c /\ 0 <= dir_size c
  /\ (forall n, dl_loop c = P_store n -> 0 <= n)
  /\ dl_thread c <> W_failed /\ dl_thread c <> W_marked
  /\ dl_loop c <> P_raised download_failed.

(** The upload counter is the count of [ProgressFile], and is not
    negative. *)
Definition up_counter_inv (c : up_config) : Prop :=
  uploaded c = pf_uploaded c /\ 0 <= uploaded c.

(** The sizes out of 1000 at which the float arithmetic of line 317 gives
    one percent less than the integer quotient. *)
Definition rounded_down_sizes : list Z := [290; 570; 580].

(** [percent_of s 1000] is floor(s / 10), or one less at the three sizes
    above. *)
Definition percent_table_ok (s : Z) : bool :=
  match percent_of s 1000 with
  | Some p =>
      p =? (if existsb (Z.eqb s) rounded_down_sizes then s / 10 - 1 else s / 10)
  | None => false
  end.

(** The bar for [p], with [Z.quot] for the truncation of [int()], and how
    many glyphs it holds. *)
Definition wide_bar_ok (p : Z) : bool :=
  match create_progress_bar p default_width with
  | Some bar =>
      let filled := Z.quot (default_width * p) 100 in
      bool_decide (bar = lit "[" ++ List.repeat STAR (Z.to_nat filled)
                         ++ List.repeat HOLLOW (Z.to_nat (default_width - filled))
                         ++ lit "] " ++ str_of_int p ++ lit "%")
      && (count STAR bar =? Z.to_nat filled)%nat
      && (count HOLLOW bar =? Z.to_nat (default_width - filled))%nat
      && implb ((-4 <=? p) && (p <=? 104))
               (count STAR bar + count HOLLOW bar =? 20)%nat
      && implb (p <=? -5)
               ((count STAR bar =? 0)%nat && (20 <? count HOLLOW bar)%nat)
      && implb (105 <=? p)
               ((count HOLLOW bar =? 0)%nat && (20 <? count STAR bar)%nat)
  | None => false
  end.

(** -200, -199, ..., 200. *)
Definition wide_percents : list Z :=
  List.map (fun k => Z.of_nat k - 200) (List.seq 0 401).

(** The chat a notice is about. *)
Definition notice_chat (n : notice) : option Z :=
  match n with
  | Notified chat_id _ | Notify_failed chat_id _ => Some chat_id
  | No_admins_warning => None
  end.

(** The sets after the main admin 7 has added 9. *)
Definition store_7_9 : admin_store :=
  fst (add_admin 7 decimal_id 7 [lit "9"] (initial_store 7)).

(** A progress edit of the upload loop (lines 414-418). *)
Definition is_upload_edit (e : effect) : bool :=
  match e with
  | Edit (T_uploading _ _) => true
  | _ => false
  end.

Definition count_upload_edits (l : list effect) : Z :=
  Z.of_nat (length (List.filter is_upload_edit l)).

(** The bytes that [requests] reads from the file during [evs], at most. *)
Fixpoint bytes_read (evs : list up_event) : Z :=
  match evs with
  | [] => 0
  | Up_read n :: rest => Z.max 0 n + bytes_read rest
  | _ :: rest => bytes_read rest
  end.

(** The count that the next report of the upload loop is about, or will
    be at least. *)
Definition up_seen (c : up_config) : Z :=
  match up_loop c with
  | Q_report current_uploaded => current_uploaded
  | _ => uploaded c
  end.

(** For a file of 1000 bytes: the counters are in range, [last_update] is
    a multiple of 5 that no later percentage falls below, and there are
    at most [last_update / 5] progress edits since [base]. *)
Definition up_edits_inv (base : list effect) (room : Z) (c : up_config) : Prop :=
  uploaded c = pf_uploaded c
  /\ 0 <= up_seen c /\ up_seen c <= uploaded c /\ uploaded c + room <= 1000
  /\ up_last_update c mod 5 = 0
  /\ 0 <= up_last_update c <= 100
  /\ (forall s p, up_seen c <= s <= 1000 -> percent_of s 1000 = Some p ->
                  up_last_update c <= p)
  /\ 5 * (count_upload_edits (up_effects c) - count_upload_edits base)
     <= up_last_update c.

(* ===================================================================== *)
(** ** Properties: the progress bar *)
(* ===================================================================== *)

Lemma bar_percent_ok_all :
  forallb bar_percent_ok (List.map Z.of_nat (List.seq 0 101)) = true.
Proof. vm_compute. reflexivity. Qed.

(** For every percentage from 0 to 100 the float arithmetic of line 40
    gives the integer quotient, and the bar has that many stars. *)
Lemma create_progress_bar_percent (p : Z) :
  0 <= p <= 100 ->
  let filled := default_width * p / 100 in
  create_progress_bar p default_width = Some (bar_of p filled)
  /\ count STAR (bar_of p filled) = Z.to_nat filled
  /\ count HOLLOW (bar_of p filled) = Z.to_nat (default_width - filled).
Proof.
  intros Hp filled.
  pose proof bar_percent_ok_all as Hall.
  rewrite forallb_forall in Hall.
  assert (Hin : In p (List.map Z.of_nat (List.seq 0 101))).
  { apply in_map_iff. exists (Z.to_nat p). split; [lia|].
    apply in_seq. lia. }
  specialize (Hall p Hin). unfold bar_percent_ok in Hall.
  destruct (create_progress_bar p default_width) as [bar|]; [|discriminate].
  apply andb_prop in Hall as [Hall Hh]. apply andb_prop in Hall as [Hb Hs].
  apply bool_decide_eq_true_1 in Hb. subst bar.
  apply Nat.eqb_eq in Hs. apply Nat.eqb_eq in Hh.
  unfold filled. auto.
Qed.

(** C6: for each percent p of 0, 25, 50, 75 and 100, the bar of width 20
    holds exactly floor(20*p/100) filled glyphs, then 20 minus that many
    empty glyphs (20 glyphs in all, between the brackets of the format
    string), and ends with the decimal p followed by a percent sign; the
    bar of 0 has no filled glyph and the bar of 100 no empty one. *)
Theorem progress_bar_quarters (p : Z) :
  In p quarter_percents -> quarter_bar_spec p.
Proof.
  intros Hin. unfold quarter_percents in Hin. simpl in Hin.
  assert (Hp : 0 <= p <= 100) by (intuition lia).
  destruct (create_progress_bar_percent p Hp) as (Hbar & Hs & Hh).
  unfold quarter_bar_spec. change default_width with 20 in *.
  exists (bar_of p (20 * p / 100)).
  split; [exact Hbar|]. split; [reflexivity|].
  split; [exact Hs|]. split; [exact Hh|].
  rewrite Hs, Hh.
  assert (Hq : 0 <= 20 * p / 100 <= 20).
  { split; [apply Z.div_pos; lia | apply Z.div_le_upper_bound; lia]. }
  split; [lia|].
  split; intros ->; split; reflexivity.
Qed.

Lemma progress_bar_quarters_witness :
  In 25 quarter_percents /\ quarter_bar_spec 25.
Proof.
  split; [right; left; reflexivity | apply (progress_bar_quarters 25)].
  right; left; reflexivity.
Defined.

(* ===================================================================== *)
(** ** Properties: the admin store *)
(* ===================================================================== *)

Section AdminFacts.

Variable MAIN_ADMIN_ID : Z.
Variable int_of_str : pystr -> option Z.

Lemma initial_store_inv :
  store_inv MAIN_ADMIN_ID (initial_store MAIN_ADMIN_ID).
Proof. split; simpl; set_solver. Qed.

Lemma add_admin_inv user_id args st :
  store_inv MAIN_ADMIN_ID st ->
  store_inv MAIN_ADMIN_ID (fst (add_admin MAIN_ADMIN_ID int_of_str user_id args st)).
Proof.
  intros [Hall Hmain]. unfold add_admin.
  destruct (user_id =? MAIN_ADMIN_ID); simpl; [|by split].
  destruct args as [|a rest]; [by split|].
  destruct (int_of_str a) as [new_admin_id|]; [|by split].
  destruct (Z.eqb_spec new_admin_id MAIN_ADMIN_ID) as [|Hne]; [by split|].
  case_bool_decide; [by split|].
  split; simpl; [rewrite Hall|]; set_solver.
Qed.

Lemma remove_admin_inv user_id args st :
  store_inv MAIN_ADMIN_ID st ->
  store_inv MAIN_ADMIN_ID (fst (remove_admin MAIN_ADMIN_ID int_of_str user_id args st))
  /\ snd (remove_admin MAIN_ADMIN_ID int_of_str user_id args st) <> Escaped_KeyError.
Proof.
  intros [Hall Hmain]. unfold remove_admin.
  destruct (user_id =? MAIN_ADMIN_ID); simpl; [|by repeat split].
  destruct args as [|a rest]; [by repeat split|].
  destruct (int_of_str a) as [target_id|]; [|by repeat split].
  destruct (Z.eqb_spec target_id MAIN_ADMIN_ID) as [|Hne]; [by repeat split|].
  case_bool_decide as Hin; simpl; [|by repeat split].
  unfold set_remove. destruct (decide (target_id ∈ ADMINS st)) as [_|Hout].
  - split; [|done]. split; simpl; [rewrite Hall|]; set_solver.
  - exfalso. apply Hout. rewrite Hall. set_solver.
Qed.

Lemma exec_command_inv st c :
  store_inv MAIN_ADMIN_ID st ->
  store_inv MAIN_ADMIN_ID (exec_command MAIN_ADMIN_ID int_of_str st c).
Proof.
  intros H. destruct c; simpl.
  - by apply add_admin_inv.
  - by apply remove_admin_inv.
Qed.

Lemma fold_commands_inv cs st :
  store_inv MAIN_ADMIN_ID st ->
  store_inv MAIN_ADMIN_ID
    (List.fold_left (exec_command MAIN_ADMIN_ID int_of_str) cs st).
Proof.
  revert st. induction cs as [|c cs IH]; intros st H; simpl; [done|].
  apply IH. by apply exec_command_inv.
Qed.

Lemma run_commands_inv cs :
  store_inv MAIN_ADMIN_ID (run_commands MAIN_ADMIN_ID int_of_str cs).
Proof. apply fold_commands_inv, initial_store_inv. Qed.

Lemma is_admin_inv st i :
  store_inv MAIN_ADMIN_ID st ->
  is_admin st i = true <-> i = MAIN_ADMIN_ID \/ i ∈ ADDITIONAL_ADMINS st.
Proof.
  intros [Hall _]. unfold is_admin. rewrite bool_decide_eq_true, Hall.
  set_solver.
Qed.

(** C5: in every store the two commands can produce, an identity passes
    the access check exactly when it is the main admin or a regular
    admin; at start there is no regular admin and the main admin passes
    the check. *)
Theorem is_admin_iff (cs : list admin_command) (i : Z) :
  let st := run_commands MAIN_ADMIN_ID int_of_str cs in
  (is_admin st i = true <-> i = MAIN_ADMIN_ID \/ i ∈ ADDITIONAL_ADMINS st)
  /\ ADDITIONAL_ADMINS (initial_store MAIN_ADMIN_ID) = ∅
  /\ is_admin (initial_store MAIN_ADMIN_ID) MAIN_ADMIN_ID = true.
Proof.
  intros st. split; [apply is_admin_inv, run_commands_inv|].
  split; [reflexivity|].
  unfold is_admin. apply bool_decide_eq_true. simpl. set_solver.
Qed.

(** C7: a requester other than the main admin is always answered "access
    denied" by [add_admin], whatever the target, and both sets stay as
    they were. *)
Theorem add_admin_denied (user_id : Z) (args : list pystr) (st : admin_store) :
  user_id <> MAIN_ADMIN_ID ->
  add_admin MAIN_ADMIN_ID int_of_str user_id args st = (st, Replied Access_denied).
Proof.
  intros Hne. unfold add_admin.
  destruct (Z.eqb_spec user_id MAIN_ADMIN_ID); [contradiction|reflexivity].
Qed.

(** C8: a removal whose target is the main admin is refused for every
    requester (access denied for others, "cannot remove the main admin"
    for the main admin) and leaves both sets unchanged. *)
Theorem remove_main_admin_refused
  (user_id : Z) (a : pystr) (rest : list pystr) (st : admin_store) :
  int_of_str a = Some MAIN_ADMIN_ID ->
  let r := remove_admin MAIN_ADMIN_ID int_of_str user_id (a :: rest) st in
  fst r = st
  /\ (snd r = Replied Access_denied \/ snd r = Replied Cannot_remove_main_admin)
  /\ (user_id = MAIN_ADMIN_ID -> snd r = Replied Cannot_remove_main_admin).
Proof.
  intros Ha r. subst r. unfold remove_admin. rewrite Ha, Z.eqb_refl.
  destruct (Z.eqb_spec user_id MAIN_ADMIN_ID); simpl; auto.
  split; [reflexivity|]. split; [auto|]. intros ?; contradiction.
Qed.

(** C10: [add_admin] and [remove_admin] keep the full set equal to the
    main admin together with the regular admins, and keep the main admin
    out of the regular admins; the invariant holds at start. *)
Theorem admin_commands_keep_inv
  (user_id : Z) (args : list pystr) (st : admin_store) :
  store_inv MAIN_ADMIN_ID st ->
  store_inv MAIN_ADMIN_ID (fst (add_admin MAIN_ADMIN_ID int_of_str user_id args st))
  /\ store_inv MAIN_ADMIN_ID (fst (remove_admin MAIN_ADMIN_ID int_of_str user_id args st)).
Proof.
  intros H. split; [by apply add_admin_inv | by apply remove_admin_inv].
Qed.

End AdminFacts.

Lemma add_admin_denied_witness :
  8 <> 7
  /\ add_admin 7 decimal_id 8 [lit "9"] (initial_store 7)
     = (initial_store 7, Replied Access_denied).
Proof.
  split; [lia | apply (add_admin_denied 7 decimal_id 8); lia].
Defined.

Lemma remove_main_admin_refused_witness :
  decimal_id (lit "7") = Some 7
  /\ fst (remove_admin 7 decimal_id 7 [lit "7"] (initial_store 7)) = initial_store 7.
Proof.
  split; [reflexivity|].
  apply (remove_main_admin_refused 7 decimal_id 7 (lit "7") [] (initial_store 7)).
  reflexivity.
Defined.

Lemma admin_commands_keep_inv_witness :
  store_inv 7 (initial_store 7)
  /\ store_inv 7 (fst (add_admin 7 decimal_id 7 [lit "9"] (initial_store 7)))
  /\ store_inv 7 (fst (remove_admin 7 decimal_id 7 [lit "9"] (initial_store 7))).
Proof.
  split; [apply initial_store_inv|].
  apply (admin_commands_keep_inv 7 decimal_id 7 [lit "9"] (initial_store 7)).
  apply initial_store_inv.
Defined.

(* ===================================================================== *)
(** ** Properties: the upload phase *)
(* ===================================================================== *)

Section UploadFacts.

Variable sync : bool.
Variables (upload_url : pystr) (file_size : Z) (file_name : pystr).

Lemma up_report_fields c cu :
  let c' := up_report file_size file_name c cu in
  upload_complete c' = upload_complete c
  /\ up_thread c' = up_thread c
  /\ uploaded c' = uploaded c
  /\ up_loop c' <> Q_exited.
Proof.
  unfold up_report. destruct c as [u pf done t q l eff]; simpl.
  destruct (file_size >? 0); [|by simpl].
  destruct (percent_of cu file_size) as [p|]; [|by simpl].
  destruct (significant p l); [|by simpl].
  destruct (create_progress_bar p default_width); by simpl.
Qed.

Lemma up_step_inv c ev :
  up_inv c -> up_inv (up_step sync upload_url file_size file_name c ev).
Proof.
  unfold up_inv. intros [Hset Hexit].
  destruct ev as [e|n|r|e| |]; simpl.
  - destruct c as [u pf d t q l eff]; simpl in *.
    destruct t; auto. simpl. destruct d; [|split; [discriminate|auto]].
    destruct (Hset eq_refl); discriminate.
  - destruct c as [u pf d t q l eff]; simpl in *.
    destruct t; auto. unfold ProgressFile_read; simpl.
    destruct (n >? 0); simpl; auto.
  - destruct c as [u pf d t q l eff]; simpl in *.
    destruct t; auto. simpl. destruct d; [|split; [discriminate|auto]].
    destruct (Hset eq_refl); discriminate.
  - destruct c as [u pf d t q l eff]; simpl in *.
    destruct t; auto. simpl. destruct d; [|split; [discriminate|auto]].
    destruct (Hset eq_refl); discriminate.
  - destruct c as [u pf d t q l eff]; unfold upload_thread_step; simpl in *.
    destruct t; auto; simpl; try (by (split; [eauto|auto]));
      (destruct d; [destruct (Hset eq_refl); discriminate|]);
      (split; [discriminate|auto]).
  - unfold up_poller_step. destruct (up_loop c) eqn:Hq.
    + destruct c as [u pf d t q l eff]; simpl in *.
      split; [auto|]. destruct d; [auto|discriminate].
    + destruct c as [u pf d t q l eff]; simpl in *. split; [auto|discriminate].
    + destruct c as [u pf d t q l eff]; simpl in *. split; [auto|discriminate].
    + destruct (up_report_fields c current_uploaded) as (Hd & Ht & _ & Hq').
      rewrite Hd, Ht. split; [auto|]. intros Hx. by apply Hq' in Hx.
    + split; [auto|]. rewrite Hq. auto.
    + split; [auto|]. rewrite Hq. discriminate.
Qed.

Lemma up_run_inv evs c :
  up_inv c -> up_inv (up_run sync upload_url file_size file_name evs c).
Proof.
  revert c. induction evs as [|ev evs IH]; intros c H; simpl; [done|].
  apply IH. by apply up_step_inv.
Qed.

Lemma up_init_inv effects : up_inv (up_init effects).
Proof. split; simpl; discriminate. Qed.

Lemma up_step_fine c ev :
  upload_succeeds ev = true -> up_thread_fine c ->
  up_thread_fine (up_step sync upload_url file_size file_name c ev).
Proof.
  unfold up_thread_fine. intros Hok Hc.
  destruct ev as [e|n|r|e| |]; simpl in *.
  - discriminate.
  - destruct (up_thread c) eqn:Ht; try (by rewrite Ht).
    unfold ProgressFile_read. destruct (n >? 0); simpl; by rewrite Ht.
  - destruct (up_thread c) eqn:Ht; try (by rewrite Ht). simpl.
    by destruct (after_post r).
  - discriminate.
  - unfold upload_thread_step. destruct (up_thread c) eqn:Ht; simpl; try done;
      by rewrite Ht.
  - unfold up_poller_step. destruct (up_loop c) eqn:Hq; simpl; try done.
    by destruct (up_report_fields c current_uploaded) as (_ & -> & _).
Qed.

Lemma up_run_fine evs c :
  forallb upload_succeeds evs = true -> up_thread_fine c ->
  up_thread_fine (up_run sync upload_url file_size file_name evs c).
Proof.
  revert c. induction evs as [|ev evs IH]; intros c Hok Hc; simpl; [done|].
  simpl in Hok. apply andb_prop in Hok as [Hev Hok].
  apply IH; [done|]. by apply up_step_fine.
Qed.

(** C9: whatever happens during the upload phase, the polling loop is left
    only after the thread has gone through its exception handler, which is
    the only place where the completion event is set; when the upload
    succeeds the event stays unset and the loop is never left. *)
Theorem upload_loop_exits_only_on_failure
  (evs : list up_event) (effects : list effect) :
  let c := up_run sync upload_url file_size file_name evs (up_init effects) in
  (up_loop c = Q_exited -> exists e, up_thread c = U_raised e)
  /\ (upload_complete c = true -> exists e, up_thread c = U_raised e)
  /\ (forallb upload_succeeds evs = true ->
      upload_complete c = false /\ up_loop c <> Q_exited).
Proof.
  intros c.
  destruct (up_run_inv evs (up_init effects) (up_init_inv effects))
    as [Hset Hexit]. fold c in Hset, Hexit.
  split; [auto|]. split; [auto|].
  intros Hok.
  assert (Hfine : up_thread_fine c) by (by apply up_run_fine).
  assert (Hd : upload_complete c = false).
  { destruct (upload_complete c) eqn:Hd; [|done].
    destruct (Hset eq_refl) as [e He]. unfold up_thread_fine in Hfine.
    by rewrite He in Hfine. }
  split; [done|]. intros Hx. apply Hexit in Hx. congruence.
Qed.

End UploadFacts.

(** The loop can be left: when the upload raises and [with lock:] runs its
    block, the event is set, the loop ends, and line 424 raises. *)
Lemma failed_upload_leaves_loop :
  handle_gofile 7 (initial_store 7) 7 [lit "https://mega.nz/file/abc"]
                world_upload_raises
  = ([Reply T_starting_download;
      Mega_get_public_file (lit "https://mega.nz/file/abc");
      Mega_download_url (lit "https://mega.nz/file/abc");
      Edit T_starting_upload;
      Http_get_servers;
      Http_post_upload (lit "https://store1.gofile.io/uploadFile") (lit "a.bin");
      Edit (T_error (lit "'Thread' object has no attribute 'result'"))],
     Returned).
Proof. reflexivity. Qed.

(* ===================================================================== *)
(** ** Properties: an upload answered with a status other than "ok" *)
(* ===================================================================== *)

Lemma percent_of_full : percent_of 1000 1000 = Some 100.
Proof. vm_compute. reflexivity. Qed.

Lemma up_step_waiting sync url name body c ev :
  up_waiting body c -> up_waiting body (up_step sync url 1000 name c ev).
Proof.
  unfold up_waiting. destruct c as [u pf d t q l eff].
  cbn [up_thread upload_complete uploaded up_loop up_effects].
  intros (Ht & Hd & Hu & Hq & Heff); subst t d u.
  destruct ev as [e|n|r|e| |]; try (simpl; by auto).
  destruct Hq as [ -> | [ -> | [ -> | -> ] ] ]; try (simpl; by auto 10).
  unfold up_step, up_poller_step.
  cbn [up_thread upload_complete uploaded up_loop up_effects].
  unfold up_report. change (1000 >? 0) with true. cbv iota.
  rewrite percent_of_full. cbv iota. cbn [up_last_update].
  destruct (significant 100 l); [|simpl; by auto 10].
  destruct (create_progress_bar_percent 100 ltac:(lia)) as (Hbar & _).
  rewrite Hbar. cbv iota.
  cbn [up_set_loop up_set_last_update up_emit up_thread upload_complete
       uploaded up_loop up_effects].
  repeat split; auto.
  rewrite forallb_app, Heff. reflexivity.
Qed.

Lemma up_run_waiting sync url name body evs c :
  up_waiting body c -> up_waiting body (up_run sync url 1000 name evs c).
Proof.
  revert c. induction evs as [|ev evs IH]; intros c H; simpl; [done|].
  apply IH. by apply up_step_waiting.
Qed.

(** C2, at an answer whose status is "error": the handler never gets past
    the upload loop, so it reports neither an error nor a link, although
    lines 425-427 would raise "Gofile error: quota exceeded" on that
    answer. *)
Theorem upload_status_error_never_reported (sync : bool) (more : list up_event) :
  let r := handle_gofile 7 (initial_store 7) 7 [lit "https://mega.nz/file/abc"]
                         (world_status_error sync more) in
  snd r = In_upload_phase
  /\ forallb (fun e => negb (reports_outcome e)) (fst r) = true
  /\ report_upload (lit "a.bin") (inr error_body)
     = inl (lit "Gofile error: quota exceeded").
Proof.
  intros r.
  assert (Hr : r = upload_part (world_status_error sync more) (lit "a.bin")
                 [Reply T_starting_download;
                  Mega_get_public_file (lit "https://mega.nz/file/abc");
                  Mega_download_url (lit "https://mega.nz/file/abc")]).
  { subst r. destruct sync; reflexivity. }
  rewrite Hr. unfold upload_part.
  cbn [get_servers getsize_downloaded upload_events sync_with_lock
       world_status_error].
  unfold up_run. rewrite fold_left_app.
  set (c1 := fold_left _ [Up_worker; Up_read 1000; Up_post_returns error_response] _).
  set (url := lit "https://" ++ lit "store1" ++ lit ".gofile.io/uploadFile").
  assert (H1 : up_waiting error_body c1).
  { subst c1. destruct sync; repeat split; simpl; auto. }
  pose proof (up_run_waiting sync url (lit "a.bin") error_body more c1 H1)
    as (Ht & Hd & Hu & Hq & Heff).
  unfold up_run in *.
  set (c := fold_left _ more c1) in *.
  split; [|split; [|reflexivity]].
  - destruct Hq as [ -> | [ -> | [ -> | -> ] ] ]; reflexivity.
  - destruct Hq as [ -> | [ -> | [ -> | -> ] ] ]; exact Heff.
Qed.

(* ===================================================================== *)
(** ** Properties: a download that fails *)
(* ===================================================================== *)

Lemma dl_report_fields total name c :
  let c' := dl_report total name c in
  download_complete c' = download_complete c
  /\ dl_thread c' = dl_thread c
  /\ downloaded c' = downloaded c
  /\ (dl_loop c' = P_test \/ dl_loop c' = P_raised float_error).
Proof.
  unfold dl_report. destruct c as [n done sz t p l eff].
  cbn [downloaded dl_last_update].
  destruct (total >? 0); [|simpl; by auto].
  destruct (percent_of n total) as [progress|]; [|simpl; by auto].
  destruct (significant progress l); [|simpl; by auto].
  destruct (create_progress_bar progress default_width); simpl; by auto.
Qed.

Lemma dl_step_waiting link total name c ev :
  url_does_not_return ev = true ->
  dl_waiting c -> dl_waiting (dl_step false link total name c ev).
Proof.
  unfold dl_waiting. intros Hev (Hd & Ht & Hp).
  destruct ev as [n| |e| |]; [| discriminate | | |].
  - destruct c; simpl in *; auto.
  - destruct c as [n done sz t p l eff]; simpl in *.
    destruct Ht as [ -> | [ -> | [ -> | -> ] ] ]; simpl; auto 10.
  - destruct c as [n done sz t p l eff]; unfold dl_step, download_thread_step; simpl in *.
    destruct Ht as [ -> | [ -> | [ -> | -> ] ] ]; simpl; auto 10.
  - unfold dl_step, dl_poller_step.
    destruct Hp as [Hp|[Hp|[Hp|[[n Hp]|[Hp|Hp]]]]]; rewrite Hp.
    + rewrite Hd. destruct c; simpl in *; auto 10.
    + destruct c; simpl in *; auto 10.
    + destruct c; simpl in *; eauto 10.
    + destruct c; simpl in *; auto 10.
    + destruct (dl_report_fields total name c) as (Hd' & Ht' & _ & Hp').
      rewrite Hd', Ht'. split; [done|]. split; [done|].
      destruct Hp' as [ -> | -> ]; auto 10.
    + rewrite Hp. auto 10.
Qed.

Lemma dl_run_waiting link total name evs c :
  forallb url_does_not_return evs = true ->
  dl_waiting c -> dl_waiting (dl_run false link total name evs c).
Proof.
  revert c. induction evs as [|ev evs IH]; intros c Hok Hc; simpl; [done|].
  simpl in Hok. apply andb_prop in Hok as [Hev Hok].
  apply IH; [done|]. by apply dl_step_waiting.
Qed.

Lemma dl_init_waiting effects : dl_waiting (dl_init effects).
Proof. unfold dl_waiting. simpl. auto 10. Qed.

(** When the failure is over before the loop is reached, it is reported. *)
Lemma early_download_failure_reported :
  handle_gofile 7 (initial_store 7) 7 [lit "https://mega.nz/file/abc"]
                (world_download true early_failure_events)
  = ([Reply T_starting_download;
      Mega_get_public_file (lit "https://mega.nz/file/abc");
      Mega_download_url (lit "https://mega.nz/file/abc");
      Edit (T_error download_failed)], Returned).
Proof. reflexivity. Qed.

(** C1, where the code departs from it. If [with lock:] runs its block, a
    download that raises while the coroutine sleeps has its -1 overwritten:
    no download error is shown and the handler goes on to the upload
    phase. If [with lock:] raises, the handler of the thread stops there:
    whatever happens, the event is never set and the loop is never left. *)
Theorem download_failure_not_reported :
  handle_gofile 7 (initial_store 7) 7 [lit "https://mega.nz/file/abc"]
                (world_download true race_events)
  = ([Reply T_starting_download;
      Mega_get_public_file (lit "https://mega.nz/file/abc");
      Mega_download_url (lit "https://mega.nz/file/abc");
      Edit (T_downloading (lit "a.bin") (bar_of 30 6));
      Edit T_starting_upload;
      Http_get_servers], In_upload_phase)
  /\ (forall link total name evs effects,
        forallb url_does_not_return evs = true ->
        let c := dl_run false link total name evs (dl_init effects) in
        download_complete c = false
        /\ dl_loop c <> P_gate /\ dl_loop c <> P_proceed
        /\ dl_loop c <> P_raised download_failed).
Proof.
  split.
  - reflexivity.
  - intros link total name evs effects Hok c.
    destruct (dl_run_waiting link total name evs (dl_init effects) Hok
                (dl_init_waiting effects)) as (Hd & _ & Hp).
    fold c in Hd, Hp. split; [done|].
    destruct Hp as [Hp|[Hp|[Hp|[[n Hp]|[Hp|Hp]]]]]; rewrite Hp;
      repeat split; discriminate.
Qed.

(* ===================================================================== *)
(** ** Properties: link validation *)
(* ===================================================================== *)

Lemma startswith_prefix (s p : pystr) :
  startswith s p = true <-> p `prefix_of` s.
Proof.
  revert s. induction p as [|c p IH]; intros s; simpl.
  - split; [intros _; apply prefix_nil | reflexivity].
  - destruct s as [|d s].
    + split; [discriminate|]. intros [k Hk]. discriminate.
    + rewrite andb_true_iff, N.eqb_eq, IH. split.
      * intros [-> Hp]. by apply prefix_cons.
      * intros [k Hk]. injection Hk as -> ->. split; [done|]. by exists k.
Qed.

(** C4: the link of an admitted user is accepted exactly when it starts
    with [https://mega.nz/] or [https://mega.io/]; a link that is not
    accepted is answered with the invalid-link message and nothing else
    happens, in particular no call to the network; of the three links of
    the specification the first is accepted and the other two refused. *)
Theorem link_validation
  (MAIN_ADMIN_ID : Z) (st : admin_store) (user_id : Z)
  (args : list pystr) (w : world) :
  is_admin st user_id = true ->
  args <> [] ->
  let mega_link := join (lit " ") args in
  (valid_mega_link mega_link = true <->
     lit "https://mega.nz/" `prefix_of` mega_link
     \/ lit "https://mega.io/" `prefix_of` mega_link)
  /\ (valid_mega_link mega_link = false ->
      handle_gofile MAIN_ADMIN_ID st user_id args w
        = ([Reply T_invalid_link], Returned)
      /\ forallb (fun e => negb (is_network_call e))
                 (fst (handle_gofile MAIN_ADMIN_ID st user_id args w)) = true)
  /\ (valid_mega_link mega_link = true ->
      handle_gofile MAIN_ADMIN_ID st user_id args w = transfer w mega_link)
  /\ valid_mega_link (lit "https://mega.nz/file/abc") = true
  /\ valid_mega_link (lit "http://mega.nz/file/abc") = false
  /\ valid_mega_link (lit "https://example.com/x") = false.
Proof.
  intros Hadmin Hargs mega_link.
  split.
  { unfold valid_mega_link. rewrite orb_true_iff, !startswith_prefix. tauto. }
  assert (Hh : handle_gofile MAIN_ADMIN_ID st user_id args w
               = if negb (valid_mega_link mega_link)
                 then ([Reply T_invalid_link], Returned)
                 else transfer w mega_link).
  { unfold handle_gofile. rewrite Hadmin. simpl.
    destruct args as [|a rest]; [contradiction|reflexivity]. }
  split; [|split].
  - intros Hv. rewrite Hh, Hv. simpl. split; reflexivity.
  - intros Hv. rewrite Hh, Hv. reflexivity.
  - repeat split; reflexivity.
Qed.

Lemma link_validation_witness :
  is_admin (initial_store 7) 7 = true
  /\ [lit "http://mega.nz/file/abc"] <> []
  /\ handle_gofile 7 (initial_store 7) 7 [lit "http://mega.nz/file/abc"]
                   (world_download true [])
     = ([Reply T_invalid_link], Returned).
Proof.
  split; [reflexivity|]. split; [discriminate|].
  apply (link_validation 7 (initial_store 7) 7 [lit "http://mega.nz/file/abc"]
           (world_download true [])); [reflexivity | discriminate | reflexivity].
Defined.

(* ===================================================================== *)
(** ** Properties: the edits of the download loop *)
(* ===================================================================== *)

Lemma percent_step_ok_all :
  forallb percent_step_ok (List.map Z.of_nat (List.seq 0 1000)) = true.
Proof. vm_compute. reflexivity. Qed.

Lemma percent_step (k : Z) :
  0 <= k < 1000 ->
  exists p q, percent_of k 1000 = Some p /\ percent_of (k + 1) 1000 = Some q
              /\ 0 <= p /\ p <= q /\ q <= 100.
Proof.
  intros Hk. pose proof percent_step_ok_all as Hall.
  rewrite forallb_forall in Hall.
  assert (Hin : In k (List.map Z.of_nat (List.seq 0 1000))).
  { apply in_map_iff. exists (Z.to_nat k). split; [lia|]. apply in_seq. lia. }
  specialize (Hall k Hin). unfold percent_step_ok in Hall.
  destruct (percent_of k 1000) as [p|]; [|discriminate].
  destruct (percent_of (k + 1) 1000) as [q|]; [|discriminate].
  exists p, q. rewrite !andb_true_iff, !Z.leb_le in Hall. intuition.
Qed.

(** With a total of 1000 every size from 0 to 1000 has a percentage, and
    it lies between 0 and 100. *)
Lemma percent_of_range (s : Z) :
  in_range s -> exists p, percent_of s 1000 = Some p /\ 0 <= p <= 100.
Proof.
  intros Hs. unfold in_range in Hs.
  destruct (Z.eq_dec s 1000) as [->|Hne].
  - exists 100. split; [vm_compute; reflexivity | lia].
  - destruct (percent_step s ltac:(lia)) as (p & q & Hp & _ & H0 & Hpq & Hq).
    exists p. split; [done|lia].
Qed.

(** The percentage does not decrease when the size grows. *)
Lemma percent_of_mono (s s' p p' : Z) :
  0 <= s -> s <= s' -> s' <= 1000 ->
  percent_of s 1000 = Some p -> percent_of s' 1000 = Some p' -> p <= p'.
Proof.
  intros H0 Hle H1 Hp Hp'.
  remember (Z.to_nat (s' - s)) as d eqn:Hd.
  revert s' p' Hle H1 Hp' Hd. induction d as [|d IH]; intros s' p' Hle H1 Hp' Hd.
  - assert (s' = s) by lia. subst s'. rewrite Hp in Hp'. injection Hp' as <-. lia.
  - destruct (percent_step (s' - 1) ltac:(lia)) as (a & b & Ha & Hb & _ & Hab & _).
    replace (s' - 1 + 1) with s' in Hb by lia.
    rewrite Hp' in Hb. injection Hb as <-.
    specialize (IH (s' - 1) a ltac:(lia) ltac:(lia) Ha ltac:(lia)). lia.
Qed.

(** What [track_download] reports for sizes that do not decrease, when
    [last_update] is not above their percentages. *)
Lemma track_download_spec (samples : list Z) (l : Z) :
  StronglySorted Z.le samples ->
  Forall in_range samples ->
  (forall s p, In s samples -> percent_of s 1000 = Some p -> l <= p) ->
  exists percents l',
    track_download 1000 samples l = Some (percents, l')
    /\ StronglySorted Z.lt percents
    /\ Forall (fun m => l < m /\ 0 <= m <= 100) percents
    /\ (forall m, In m percents <->
                  m mod 5 = 0 /\ m <> l
                  /\ exists s, In s samples /\ percent_of s 1000 = Some m).
Proof.
  revert l. induction samples as [|s rest IH]; intros l Hsorted Hrange Hl.
  - exists [], l. simpl. split; [done|]. split; [constructor|].
    split; [constructor|]. intros m. split; [intros []|].
    intros (_ & _ & s & [] & _).
  - apply StronglySorted_inv in Hsorted as [Hsorted Hhead].
    apply Forall_cons_iff in Hrange as [Hs Hrange].
    rewrite List.Forall_forall in Hhead.
    destruct (percent_of_range s Hs) as (p & Hp & Hp01).
    assert (Hlp : l <= p) by (apply (Hl s p); [by left|done]).
    assert (Hrest : forall s' p', In s' rest -> percent_of s' 1000 = Some p' -> p <= p').
    { intros s' p' Hin Hp'. rewrite List.Forall_forall in Hrange.
      specialize (Hrange s' Hin). specialize (Hhead s' Hin).
      unfold in_range in *. eapply (percent_of_mono s s'); eauto; lia. }
    cbn [track_download]. change (1000 >? 0) with true. cbv iota. rewrite Hp.
    destruct (significant p l) eqn:Hsig.
    + unfold significant in Hsig. apply andb_prop in Hsig as [Hne Hmod].
      apply negb_true_iff, Z.eqb_neq in Hne. apply Z.eqb_eq in Hmod.
      destruct (IH p Hsorted Hrange Hrest) as (percents & l' & Ht & Hss & Hgt & Hiff).
      destruct (create_progress_bar_percent p Hp01) as (Hbar & _).
      exists (p :: percents), l'. rewrite Hbar, Ht. split; [done|].
      split; [constructor; [done|]|].
      { eapply List.Forall_impl; [|exact Hgt]. simpl. tauto. }
      split.
      { constructor; [lia|]. eapply List.Forall_impl; [|exact Hgt]. simpl. lia. }
      intros m. simpl. rewrite Hiff. split.
      * intros [<-|(Hm & Hmp & s' & Hin & Hs')].
        -- repeat split; [done|lia|]. exists s. auto.
        -- repeat split; [done| |eauto]. specialize (Hrest s' m Hin Hs'). lia.
      * intros (Hm & Hml & s' & [<-|Hin] & Hs').
        -- left. congruence.
        -- destruct (Z.eq_dec p m) as [|Hpm]; [by left|right]. eauto 10.
    + assert (Hl' : forall s' p', In s' rest -> percent_of s' 1000 = Some p' -> l <= p').
      { intros s' p' Hin Hp'. specialize (Hrest s' p' Hin Hp'). lia. }
      destruct (IH l Hsorted Hrange Hl') as (percents & l' & Ht & Hss & Hgt & Hiff).
      exists percents, l'. rewrite Ht. split; [done|]. split; [done|].
      split; [done|]. intros m. rewrite Hiff. split.
      * intros (Hm & Hml & s' & Hin & Hs'). repeat split; [done|done|].
        exists s'. split; [by right|done].
      * intros (Hm & Hml & s' & [<-|Hin] & Hs'); [|eauto 10].
        exfalso. rewrite Hp in Hs'. injection Hs' as <-.
        unfold significant in Hsig. apply andb_false_iff in Hsig as [Hsig|Hsig].
        -- apply negb_false_iff, Z.eqb_eq in Hsig. done.
        -- apply Z.eqb_neq in Hsig. done.
Qed.

Lemma poll_once_run sync link name c s p :
  dl_loop c = P_test -> download_complete c = false ->
  percent_of s 1000 = Some p -> 0 <= p <= 100 ->
  let c' := dl_run sync link 1000 name (poll_once s) c in
  dl_loop c' = P_test /\ download_complete c' = false
  /\ (if significant p (dl_last_update c)
      then dl_last_update c' = p
           /\ dl_effects c' = dl_effects c ++ [download_edit name p]
      else dl_last_update c' = dl_last_update c
           /\ dl_effects c' = dl_effects c).
Proof.
  destruct c as [n done sz t q l eff].
  cbn [dl_loop download_complete dl_last_update dl_effects].
  intros -> -> Hp Hp01.
  change (dl_run sync link 1000 name (poll_once s)
            (Dl_config n false sz t P_test l eff))
    with (dl_report 1000 name (Dl_config s false s t P_report l eff)).
  unfold dl_report. cbn [downloaded dl_last_update].
  change (1000 >? 0) with true. cbv iota. rewrite Hp.
  destruct (significant p l).
  - destruct (create_progress_bar_percent p Hp01) as (Hbar & _).
    rewrite Hbar. repeat split; reflexivity.
  - repeat split; reflexivity.
Qed.

Lemma dl_run_polls sync link name samples :
  forall c percents l',
  Forall in_range samples ->
  dl_loop c = P_test -> download_complete c = false ->
  track_download 1000 samples (dl_last_update c) = Some (percents, l') ->
  let c' := dl_run sync link 1000 name (concat (List.map poll_once samples)) c in
  dl_loop c' = P_test /\ download_complete c' = false
  /\ dl_last_update c' = l'
  /\ dl_effects c' = dl_effects c ++ List.map (download_edit name) percents.
Proof.
  induction samples as [|s rest IH]; intros c percents l' Hrange Hq Hd Ht.
  - simpl in *. injection Ht as <- <-. by rewrite app_nil_r.
  - apply Forall_cons_iff in Hrange as [Hs Hrange].
    destruct (percent_of_range s Hs) as (p & Hp & Hp01).
    cbn [List.map concat]. unfold dl_run. rewrite fold_left_app.
    fold (dl_run sync link 1000 name (poll_once s) c).
    destruct (poll_once_run sync link name c s p Hq Hd Hp Hp01)
      as (Hq1 & Hd1 & Hstep).
    set (c1 := dl_run sync link 1000 name (poll_once s) c) in *.
    fold (dl_run sync link 1000 name (concat (List.map poll_once rest)) c1).
    cbn [track_download] in Ht. change (1000 >? 0) with true in Ht.
    cbv iota in Ht. rewrite Hp in Ht.
    destruct (significant p (dl_last_update c)).
    + destruct Hstep as [Hl1 He1].
      destruct (create_progress_bar_percent p Hp01) as (Hbar & _).
      rewrite Hbar in Ht.
      destruct (track_download 1000 rest p) as [[edits l1]|] eqn:Hrest;
        [|discriminate].
      injection Ht as <- <-. rewrite <- Hl1 in Hrest.
      destruct (IH c1 edits l1 Hrange Hq1 Hd1 Hrest) as (? & ? & ? & He).
      repeat split; try done. rewrite He, He1, <- app_assoc. reflexivity.
    + destruct Hstep as [Hl1 He1]. rewrite <- Hl1 in Ht.
      destruct (IH c1 percents l' Hrange Hq1 Hd1 Ht) as (? & ? & ? & He).
      repeat split; try done. by rewrite He, He1.
Qed.

(** Two strictly increasing lists with the same members are equal. *)
Lemma increasing_ext (l1 l2 : list Z) :
  StronglySorted Z.lt l1 -> StronglySorted Z.lt l2 ->
  (forall x, In x l1 <-> In x l2) -> l1 = l2.
Proof.
  revert l2. induction l1 as [|a l1 IH]; intros l2 H1 H2 Hext.
  - destruct l2 as [|b l2]; [done|]. destruct (proj2 (Hext b)). by left.
  - destruct l2 as [|b l2]; [destruct (proj1 (Hext a)); by left|].
    apply StronglySorted_inv in H1 as [H1 Ha].
    apply StronglySorted_inv in H2 as [H2 Hb].
    rewrite List.Forall_forall in Ha, Hb.
    assert (Hab : a = b).
    { destruct (proj1 (Hext a) ltac:(by left)) as [|Hin]; [done|].
      destruct (proj2 (Hext b) ltac:(by left)) as [|Hin']; [done|].
      specialize (Ha b Hin'). specialize (Hb a Hin). lia. }
    subst b. f_equal. apply IH; [done|done|].
    intros x. split; intros Hx.
    + destruct (proj1 (Hext x) ltac:(by right)) as [<-|]; [|done].
      specialize (Ha a Hx). lia.
    + destruct (proj2 (Hext x) ltac:(by right)) as [<-|]; [|done].
      specialize (Hb a Hx). lia.
Qed.

Lemma every_five_sorted : StronglySorted Z.lt every_five.
Proof.
  apply Sorted_StronglySorted; [intros x y z; apply Z.lt_trans|].
  unfold every_five. simpl. repeat constructor.
Qed.

Lemma In_every_five (m : Z) :
  In m every_five <-> m mod 5 = 0 /\ 0 < m <= 100.
Proof.
  unfold every_five. rewrite in_map_iff. split.
  - intros (k & <- & Hk). apply in_seq in Hk.
    split; [|lia]. rewrite Z.mul_comm. apply Z_mod_mult.
  - intros [Hm Hr]. exists (Z.to_nat (m / 5)).
    apply Z.mod_divide in Hm; [|lia]. destruct Hm as [q ->].
    rewrite Z.div_mul by lia. split; [lia|]. apply in_seq. lia.
Qed.

(** C3 as stated fails. Sampled at 0, 50, 100, ..., 1000 bytes the loop
    edits at 5, 10, ..., 100 and makes no edit at 0; sampled at 0, 70 and
    1000 bytes it makes one edit, at 100, although 5, 10, ..., 95 have
    been crossed. *)
Lemma download_edits_not_every_five :
  download_effects true (lit "L") (lit "a.bin") samples_by_50
    = Mega_download_url (lit "L")
      :: List.map (download_edit (lit "a.bin")) every_five
  /\ download_effects true (lit "L") (lit "a.bin") samples_by_50
     <> Mega_download_url (lit "L") :: expected_edits (lit "a.bin")
  /\ download_effects true (lit "L") (lit "a.bin") [0; 70; 1000]
     = [Mega_download_url (lit "L"); download_edit (lit "a.bin") 100].
Proof.
  assert (H : download_effects true (lit "L") (lit "a.bin") samples_by_50
              = Mega_download_url (lit "L")
                :: List.map (download_edit (lit "a.bin")) every_five)
    by (vm_compute; reflexivity).
  split; [exact H|]. split; [|vm_compute; reflexivity].
  rewrite H. intros Heq. apply (f_equal (@List.length effect)) in Heq.
  vm_compute in Heq. discriminate.
Qed.

(** C3, amended: when the sampled sizes do not decrease and stay within
    0..1000, for a total of 1000, the edits of the download loop are made
    at strictly increasing percents (so no two at the same percent), and
    there is an edit at percent m exactly when m is a multiple of 5 from 5
    to 100 and the percentage computed for some sample is m; so when every
    multiple of 5 from 5 to 100 is the percentage of some sample, the
    edits are exactly those at 5, 10, ..., 100. There is never an edit at
    0. *)
Theorem download_edits (sync : bool) (link name : pystr) (samples : list Z) :
  Sorted Z.le samples ->
  Forall in_range samples ->
  exists percents last_update,
    track_download 1000 samples 0 = Some (percents, last_update)
    /\ download_effects sync link name samples
       = Mega_download_url link :: List.map (download_edit name) percents
    /\ StronglySorted Z.lt percents
    /\ (forall m, In m percents <->
                  m mod 5 = 0 /\ 0 < m <= 100
                  /\ exists s, In s samples /\ percent_of s 1000 = Some m)
    /\ ~ In 0 percents
    /\ ((forall m, In m every_five ->
                   exists s, In s samples /\ percent_of s 1000 = Some m) ->
        percents = every_five).
Proof.
  intros Hsorted Hrange.
  apply Sorted_StronglySorted in Hsorted; [|intros x y z; apply Z.le_trans].
  destruct (track_download_spec samples 0 Hsorted Hrange)
    as (percents & l' & Ht & Hss & Hgt & Hiff).
  { intros s p Hin Hp. rewrite List.Forall_forall in Hrange.
    destruct (percent_of_range s (Hrange s Hin)) as (p' & Hp' & ?).
    rewrite Hp in Hp'. injection Hp' as <-. lia. }
  assert (Hchar : forall m, In m percents <->
                    m mod 5 = 0 /\ 0 < m <= 100
                    /\ exists s, In s samples /\ percent_of s 1000 = Some m).
  { intros m. rewrite Hiff. split.
    - intros (Hm & Hne & s & Hin & Hs).
      rewrite List.Forall_forall in Hrange.
      destruct (percent_of_range s (Hrange s Hin)) as (p' & Hp' & ?).
      rewrite Hs in Hp'. injection Hp' as <-.
      split; [done|]. split; [lia|]. eauto.
    - intros (Hm & Hpos & Hex). split; [done|]. split; [lia|done]. }
  exists percents, l'. split; [done|]. split; [|split; [done|split; [done|split]]].
  - unfold download_effects, poll_events, dl_run. cbn [fold_left].
    set (c0 := dl_step sync link 1000 name (dl_init []) Dl_worker).
    destruct (dl_run_polls sync link name samples c0 percents l' Hrange)
      as (_ & _ & _ & He); done.
  - intros H0. apply Hchar in H0. lia.
  - intros Hall. apply increasing_ext; [done|apply every_five_sorted|].
    intros m. rewrite Hchar, In_every_five. split.
    + tauto.
    + intros Hm. split; [tauto|]. split; [tauto|].
      apply Hall. by apply In_every_five.
Qed.

Lemma download_edits_witness :
  Sorted Z.le [0; 70; 1000]
  /\ Forall in_range [0; 70; 1000]
  /\ exists percents last_update,
       track_download 1000 [0; 70; 1000] 0 = Some (percents, last_update)
       /\ download_effects true (lit "L") (lit "a.bin") [0; 70; 1000]
          = Mega_download_url (lit "L")
            :: List.map (download_edit (lit "a.bin")) percents
       /\ StronglySorted Z.lt percents
       /\ (forall m, In m percents <->
                     m mod 5 = 0 /\ 0 < m <= 100
                     /\ exists s, In s [0; 70; 1000] /\ percent_of s 1000 = Some m)
       /\ ~ In 0 percents
       /\ ((forall m, In m every_five ->
                      exists s, In s [0; 70; 1000] /\ percent_of s 1000 = Some m) ->
           percents = every_five).
Proof.
  assert (Hs : Sorted Z.le [0; 70; 1000]).
  { repeat constructor; lia. }
  assert (Hr : Forall in_range [0; 70; 1000]).
  { repeat constructor; unfold in_range; lia. }
  split; [exact Hs|]. split; [exact Hr|].
  exact (download_edits true (lit "L") (lit "a.bin") [0; 70; 1000] Hs Hr).
Defined.

(* ===================================================================== *)
(** ** Properties: the trace of a transfer *)
(* ===================================================================== *)

Lemma dl_report_effects total name c :
  dl_thread (dl_report total name c) = dl_thread c
  /\ (dl_effects (dl_report total name c) = dl_effects c
      \/ exists bar, dl_effects (dl_report total name c)
                     = dl_effects c ++ [Edit (T_downloading name bar)]).
Proof.
  unfold dl_report. destruct c as [n done sz t p l eff].
  cbn [downloaded dl_last_update].
  destruct (total >? 0); [|simpl; by auto].
  destruct (percent_of n total) as [progress|]; [|simpl; by auto].
  destruct (significant progress l); [|simpl; by auto].
  destruct (create_progress_bar progress default_width) as [bar|];
    simpl; [|by auto].
  split; [done|]. right. by exists bar.
Qed.

Lemma dl_step_shape sync link total name base c ev :
  dl_shape link base c -> dl_shape link base (dl_step sync link total name c ev).
Proof.
  intros (rest & He & Hq & Hn). unfold dl_shape.
  destruct ev as [n| |e| |].
  - exists rest. by destruct c.
  - exists rest. destruct c as [n done sz t p l eff]; simpl in *.
    destruct t; simpl; auto.
  - exists rest. destruct c as [n done sz t p l eff]; simpl in *.
    destruct t; simpl; auto.
  - destruct c as [n done sz t p l eff]; simpl in *.
    unfold download_thread_step; simpl.
    destruct t; simpl; try (by exists rest); [|destruct sync; by exists rest].
    exists (rest ++ [Mega_download_url link]). subst eff.
    rewrite <- app_assoc, forallb_app, List.filter_app, Hq, Hn. by simpl.
  - unfold dl_step, dl_poller_step.
    destruct (dl_loop c) eqn:Hp;
      try (exists rest; destruct c; simpl in *; by auto).
    destruct (dl_report_effects total name c) as (Ht & [Heq|[bar Heq]]).
    + exists rest. by rewrite Ht, Heq.
    + exists (rest ++ [Edit (T_downloading name bar)]).
      rewrite Ht, Heq, He, <- app_assoc, forallb_app, List.filter_app, Hq, Hn.
      simpl. rewrite app_nil_r. by destruct (dl_thread c).
Qed.

Lemma dl_run_shape sync link total name base evs c :
  dl_shape link base c -> dl_shape link base (dl_run sync link total name evs c).
Proof.
  revert c. induction evs as [|ev evs IH]; intros c H; simpl; [done|].
  apply IH. by apply dl_step_shape.
Qed.

Lemma dl_init_shape link base : dl_shape link base (dl_init base).
Proof. exists []. simpl. by rewrite app_nil_r. Qed.

Lemma up_report_effects size name c cu :
  up_thread (up_report size name c cu) = up_thread c
  /\ (up_effects (up_report size name c cu) = up_effects c
      \/ exists bar, up_effects (up_report size name c cu)
                     = up_effects c ++ [Edit (T_uploading name bar)]).
Proof.
  unfold up_report. destruct c as [u pf done t q l eff].
  cbn [up_last_update].
  destruct (size >? 0); [|simpl; by auto].
  destruct (percent_of cu size) as [progress|]; [|simpl; by auto].
  destruct (significant progress l); [|simpl; by auto].
  destruct (create_progress_bar progress default_width) as [bar|];
    simpl; [|by auto].
  split; [done|]. right. by exists bar.
Qed.

Lemma up_step_shape sync url size name base c ev :
  up_shape url name base c -> up_shape url name base (up_step sync url size name c ev).
Proof.
  intros (rest & He & Hq & Hn). unfold up_shape.
  destruct ev as [e|n|r|e| |].
  - destruct c as [u pf done t q l eff]; simpl in *.
    destruct t; simpl; try (by exists rest).
    exists rest. split; [done|]. split; [done|].
    destruct Hn as [Hn|[_ Hn]]; [by left|done].
  - destruct c as [u pf done t q l eff]; simpl in *.
    destruct t; simpl; try (by exists rest).
    unfold ProgressFile_read; simpl. destruct (n >? 0); simpl; by exists rest.
  - destruct c as [u pf done t q l eff]; simpl in *.
    destruct t; simpl; try (by exists rest).
    exists rest. split; [done|]. split; [done|].
    destruct Hn as [Hn|[Hn _]]; [by left|right]. split; [done|].
    unfold after_post. destruct (http_error r); [done|].
    by destruct (resp_json r).
  - destruct c as [u pf done t q l eff]; simpl in *.
    destruct t; simpl; try (by exists rest).
    exists rest. split; [done|]. split; [done|].
    destruct Hn as [Hn|[Hn _]]; [by left|by right].
  - destruct c as [u pf done t q l eff]; simpl in *.
    unfold upload_thread_step; simpl.
    destruct t; simpl; try (by exists rest).
    + exists (rest ++ [Http_post_upload url name]). subst eff.
      rewrite <- app_assoc, forallb_app, List.filter_app, Hq.
      split; [done|]. split; [done|].
      destruct Hn as [Hn|[_ Hn]]; [|done]. rewrite Hn. by right.
    + exists rest. split; [done|]. split; [done|].
      destruct Hn as [Hn|[Hn _]]; [by left|right]. by destruct sync.
    + exists rest. split; [done|]. split; [done|].
      destruct Hn as [Hn|[Hn _]]; [by left|by right].
  - unfold up_step, up_poller_step.
    destruct (up_loop c) eqn:Hp;
      try (exists rest; destruct c; simpl in *; by auto).
    destruct (up_report_effects size name c current_uploaded)
      as (Ht & [Heq|[bar Heq]]).
    + exists rest. by rewrite Ht, Heq.
    + exists (rest ++ [Edit (T_uploading name bar)]).
      rewrite Ht, Heq, He, <- app_assoc, forallb_app, List.filter_app, Hq.
      simpl. by rewrite app_nil_r.
Qed.

Lemma up_run_shape sync url size name base evs c :
  up_shape url name base c ->
  up_shape url name base (up_run sync url size name evs c).
Proof.
  revert c. induction evs as [|ev evs IH]; intros c H; simpl; [done|].
  apply IH. by apply up_step_shape.
Qed.

Lemma up_init_shape url name base : up_shape url name base (up_init base).
Proof. exists []. simpl. rewrite app_nil_r. auto. Qed.

(* ===================================================================== *)
(** ** Properties: the gate between download and upload *)
(* ===================================================================== *)

Lemma dl_report_gate total name c :
  let c' := dl_report total name c in
  download_complete c' = download_complete c
  /\ dl_thread c' = dl_thread c
  /\ downloaded c' = downloaded c
  /\ dl_loop c' <> P_gate /\ dl_loop c' <> P_proceed
  /\ dl_loop c' <> P_raised download_failed.
Proof.
  intros c'.
  destruct (dl_report_fields total name c) as (Hd & Ht & Hn & Hp).
  fold c' in Hd, Ht, Hn, Hp. repeat split; try done.
  - by destruct Hp as [-> | ->].
  - by destruct Hp as [-> | ->].
  - destruct Hp as [-> | ->]; discriminate.
Qed.

Lemma dl_step_gate sync link total name c ev :
  dl_gate_inv c -> dl_gate_inv (dl_step sync link total name c ev).
Proof.
  unfold dl_gate_inv. intros (Hg & Hd & Hp & Hf).
  destruct ev as [n| |e| |].
  - by destruct c.
  - destruct c as [n done sz t p l eff]; simpl in *.
    destruct t, done; simpl; intuition (try discriminate; try congruence).
  - destruct c as [n done sz t p l eff]; simpl in *.
    destruct t, done; simpl; intuition (try discriminate; try congruence).
  - destruct c as [n done sz t p l eff]; simpl in *.
    unfold download_thread_step; simpl.
    destruct t, done, sync; simpl;
      intuition (try discriminate; try congruence).
  - unfold dl_step, dl_poller_step. destruct (dl_loop c) eqn:Hl.
    + destruct c as [n done sz t p l eff]; simpl in *. subst p.
      destruct done; simpl; intuition (try discriminate; try congruence).
    + destruct c as [n done sz t p l eff]; simpl in *.
      intuition (try discriminate; try congruence).
    + destruct c as [n done sz t p l eff]; simpl in *.
      intuition (try discriminate; try congruence).
    + destruct c as [n done sz t p l eff]; simpl in *.
      intuition (try discriminate; try congruence).
    + destruct (dl_report_gate total name c) as (Hd' & Ht' & Hn' & H1 & H2 & H3).
      rewrite Hd', Ht', Hn'. intuition (try discriminate; try congruence).
    + destruct c as [n done sz t p l eff]; simpl in *. subst p.
      destruct (Z.eqb_spec n (-1));
        intuition (try discriminate; try congruence).
    + rewrite Hl. intuition.
    + rewrite Hl. intuition.
Qed.

Lemma dl_run_gate sync link total name evs c :
  dl_gate_inv c -> dl_gate_inv (dl_run sync link total name evs c).
Proof.
  revert c. induction evs as [|ev evs IH]; intros c H; simpl; [done|].
  apply IH. by apply dl_step_gate.
Qed.

Lemma dl_init_gate effects : dl_gate_inv (dl_init effects).
Proof.
  unfold dl_gate_inv. simpl. repeat split; try discriminate.
  intros [H|[H|H]]; discriminate.
Qed.

Lemma on_exception_eq w effects e :
  on_exception w effects e = (effects ++ error_report w e, Returned).
Proof. unfold on_exception, error_report. by destruct (error_edit_ok w). Qed.

Lemma dl_phase_quiet rest :
  forallb dl_phase_effect rest = true ->
  forallb (fun e => negb (reports_outcome e)) rest = true.
Proof.
  rewrite !forallb_forall. intros H e He. specialize (H e He).
  destruct e as [t|t|t| | | |]; try done; by destruct t.
Qed.

Lemma up_phase_quiet rest :
  forallb up_phase_effect rest = true ->
  forallb (fun e => negb (reports_outcome e)) rest = true.
Proof.
  rewrite !forallb_forall. intros H e He. specialize (H e He).
  destruct e as [t|t|t| | | |]; try done; by destruct t.
Qed.

Lemma phase_effect_calls (f : effect -> bool) rest :
  forallb f rest = true -> forall g, (forall e, f e = true -> g e = true) ->
  forallb g rest = true.
Proof.
  rewrite forallb_forall. intros H g Hfg. apply forallb_forall. auto.
Qed.

(** Every run of the [try] block has the shape of [transfer_trace]. *)
Lemma transfer_has_trace w link : transfer_trace w link (transfer w link).
Proof.
  unfold transfer, transfer_trace.
  set (base := [Reply T_starting_download; Mega_get_public_file link]).
  destruct (get_public_file w link) as [e|[total name]].
  { rewrite on_exception_eq. exists [Mega_get_public_file link], (error_report w e), [], [].
    simpl. split; [done|]. split; [done|]. split; [by exists
      [Mega_download_url link; Http_get_servers; Http_post_upload [] []]|].
    right. by exists e. }
  set (c := dl_run (sync_with_lock w) link total name (download_events w)
                   (dl_init base)).
  destruct (dl_run_shape (sync_with_lock w) link total name base
              (download_events w) (dl_init base) (dl_init_shape link base))
    as (rest & He & Hq & Hn). fold c in He, Hn.
  destruct (dl_run_gate (sync_with_lock w) link total name
              (download_events w) (dl_init base) (dl_init_gate base))
    as (Hg & Hd & _ & _). fold c in Hg, Hd.
  pose proof (dl_phase_quiet rest Hq) as Hquiet.
  assert (Hcalls : List.filter is_network_call rest = []
                   \/ List.filter is_network_call rest = [Mega_download_url link]).
  { rewrite Hn. destruct (dl_thread c); auto. }
  assert (Hwait : exists body tail url name0,
             dl_effects c = Reply T_starting_download :: body ++ tail
             /\ forallb (fun e => negb (reports_outcome e)) body = true
             /\ List.filter is_network_call body
                `prefix_of` pipeline_calls link url name0
             /\ tail = []).
  { exists (Mega_get_public_file link :: rest), [], [], [].
    rewrite He, app_nil_r. split; [done|]. split; [done|]. split; [|done].
    simpl. destruct Hcalls as [-> | ->].
    - by exists [Mega_download_url link; Http_get_servers; Http_post_upload [] []].
    - by exists [Http_get_servers; Http_post_upload [] []]. }
  assert (Hfail : forall e, exists body tail url name0,
             dl_effects c ++ error_report w e
               = Reply T_starting_download :: body ++ tail
             /\ forallb (fun e => negb (reports_outcome e)) body = true
             /\ List.filter is_network_call body
                `prefix_of` pipeline_calls link url name0
             /\ tail = error_report w e).
  { intros e. exists (Mega_get_public_file link :: rest), (error_report w e), [], [].
    rewrite He. split; [done|]. split; [done|]. split; [|done].
    simpl. destruct Hcalls as [-> | ->].
    - by exists [Mega_download_url link; Http_get_servers; Http_post_upload [] []].
    - by exists [Http_get_servers; Http_post_upload [] []]. }
  destruct (dl_loop c) eqn:Hloop;
    try (destruct Hwait as (body & tail & url & name0 & H1 & H2 & H3 & H4);
         exists body, tail, url, name0; simpl; by auto 10).
  2: { rewrite on_exception_eq. destruct (Hfail e)
         as (body & tail & url & name0 & H1 & H2 & H3 & H4).
       exists body, tail, url, name0. simpl. split; [done|]. split; [done|].
       split; [done|]. right. by exists e. }
  (* the upload part *)
  assert (Hstarted : List.filter is_network_call rest = [Mega_download_url link]).
  { rewrite Hn. specialize (Hg ltac:(auto)). specialize (Hd Hg). by rewrite Hd. }
  unfold upload_part.
  set (base2 := dl_effects c ++ [Edit T_starting_upload; Http_get_servers]).
  set (body2 := Mega_get_public_file link :: rest
                ++ [Edit T_starting_upload; Http_get_servers]).
  assert (Hbase2 : base2 = Reply T_starting_download :: body2).
  { unfold base2, body2. rewrite He. by rewrite <- !app_assoc. }
  assert (Hquiet2 : forallb (fun e => negb (reports_outcome e)) body2 = true).
  { unfold body2. simpl. by rewrite forallb_app, Hquiet. }
  assert (Hcalls2 : List.filter is_network_call body2
                    = [Mega_get_public_file link; Mega_download_url link;
                       Http_get_servers]).
  { unfold body2. simpl. by rewrite List.filter_app, Hstarted. }
  destruct (get_servers w) as [e|server].
  { rewrite on_exception_eq. exists body2, (error_report w e), [], [].
    cbn [fst snd]. rewrite Hbase2. split; [done|]. split; [done|].
    split; [rewrite Hcalls2; by exists [Http_post_upload [] []]|].
    right. by exists e. }
  set (url := lit "https://" ++ server ++ lit ".gofile.io/uploadFile").
  destruct (getsize_downloaded w) as [e|size].
  { rewrite on_exception_eq. exists body2, (error_report w e), [], [].
    cbn [fst snd]. rewrite Hbase2. split; [done|]. split; [done|].
    split; [rewrite Hcalls2; by exists [Http_post_upload [] []]|].
    right. by exists e. }
  set (u := up_run (sync_with_lock w) url size name (upload_events w)
                   (up_init base2)).
  destruct (up_run_shape (sync_with_lock w) url size name base2
              (upload_events w) (up_init base2) (up_init_shape url name base2))
    as (rest2 & He2 & Hq2 & Hn2). fold u in He2, Hn2.
  pose proof (up_phase_quiet rest2 Hq2) as Hquiet3.
  assert (Hshape : up_effects u = Reply T_starting_download :: (body2 ++ rest2)
                   /\ forallb (fun e => negb (reports_outcome e)) (body2 ++ rest2)
                      = true
                   /\ List.filter is_network_call (body2 ++ rest2)
                      `prefix_of` pipeline_calls link url name).
  { rewrite He2, Hbase2. split; [done|].
    split; [by rewrite forallb_app, Hquiet2, Hquiet3|].
    rewrite List.filter_app, Hcalls2.
    destruct Hn2 as [-> | [-> _]]; [by exists [Http_post_upload url name]|].
    by exists []. }
  destruct Hshape as (Hu1 & Hu2 & Hu3).
  destruct (up_loop u) eqn:Hq'.
  1-4: exists (body2 ++ rest2), [], url, name; rewrite app_nil_r;
       cbn [fst snd]; by auto 10.
  - change (report_upload name thread_result)
      with (@inl exn effect (lit "'Thread' object has no attribute 'result'")).
    cbv iota. rewrite on_exception_eq.
    exists (body2 ++ rest2), (error_report w
      (lit "'Thread' object has no attribute 'result'")), url, name.
    cbn [fst snd]. rewrite Hu1. split; [done|]. split; [done|]. split; [done|].
    right. by eexists.
  - rewrite on_exception_eq.
    exists (body2 ++ rest2), (error_report w e), url, name.
    cbn [fst snd]. rewrite Hu1. split; [done|]. split; [done|]. split; [done|].
    right. by eexists.
Qed.

Lemma success_reports_outcome e : is_success e = true -> reports_outcome e = true.
Proof. destruct e as [t|t|t| | | |]; try done; by destruct t. Qed.

Lemma quiet_not_success l :
  forallb (fun e => negb (reports_outcome e)) l = true ->
  forallb (fun e => negb (is_success e)) l = true.
Proof.
  rewrite !forallb_forall. intros H e He. specialize (H e He).
  destruct (is_success e) eqn:Hs; [|done].
  apply success_reports_outcome in Hs. by rewrite Hs in H.
Qed.

Lemma error_report_not_success w e :
  forallb (fun e => negb (is_success e)) (error_report w e) = true.
Proof. unfold error_report. by destruct (error_edit_ok w). Qed.

(** X1: whatever Mega, Gofile, the chat and the scheduler do,
    [handle_gofile] never sends the message that carries the download
    link. *)
Theorem handle_gofile_never_shows_link
  (MAIN_ADMIN_ID : Z) (st : admin_store) (user_id : Z) (args : list pystr)
  (w : world) :
  forallb (fun e => negb (is_success e))
          (fst (handle_gofile MAIN_ADMIN_ID st user_id args w)) = true.
Proof.
  unfold handle_gofile.
  destruct (negb (is_admin st user_id)); [done|].
  destruct args as [|a rest]; [done|].
  destruct (negb (valid_mega_link (join (lit " ") (a :: rest)))); [done|].
  destruct (transfer_has_trace w (join (lit " ") (a :: rest)))
    as (body & tail & url & name & Hfst & Hquiet & _ & Htail).
  rewrite Hfst. cbn [forallb is_success negb andb].
  rewrite forallb_app, (quiet_not_success body Hquiet).
  destruct Htail as [[-> _]|(e & -> & _)]; [done|].
  apply error_report_not_success.
Qed.

(** X2: when a transfer that was started ends, the user is shown one
    error, as the last thing the handler does: an edit of the status
    message or, if that edit fails, a fresh reply. Nothing before it
    reports an outcome. *)
Theorem transfer_ends_with_one_error
  (MAIN_ADMIN_ID : Z) (st : admin_store) (user_id : Z) (args : list pystr)
  (w : world) :
  is_admin st user_id = true ->
  args <> [] ->
  valid_mega_link (join (lit " ") args) = true ->
  snd (handle_gofile MAIN_ADMIN_ID st user_id args w) = Returned ->
  exists before e,
    fst (handle_gofile MAIN_ADMIN_ID st user_id args w)
      = before ++ error_report w e
    /\ forallb (fun e => negb (reports_outcome e)) before = true.
Proof.
  intros Hadmin Hargs Hvalid. unfold handle_gofile. rewrite Hadmin.
  destruct args as [|a rest]; [done|]. rewrite Hvalid. cbn [negb].
  intros Hret.
  destruct (transfer_has_trace w (join (lit " ") (a :: rest)))
    as (body & tail & url & name & Hfst & Hquiet & _ & Htail).
  destruct Htail as [[_ Hne]|(e & -> & _)]; [done|].
  exists (Reply T_starting_download :: body), e. rewrite Hfst.
  split; [done|]. cbn [forallb reports_outcome negb andb]. exact Hquiet.
Qed.

Lemma transfer_ends_with_one_error_witness :
  is_admin (initial_store 7) 7 = true
  /\ [lit "https://mega.nz/file/abc"] <> []
  /\ valid_mega_link (join (lit " ") [lit "https://mega.nz/file/abc"]) = true
  /\ snd (handle_gofile 7 (initial_store 7) 7 [lit "https://mega.nz/file/abc"]
                        (world_download true early_failure_events)) = Returned
  /\ exists before e,
       fst (handle_gofile 7 (initial_store 7) 7 [lit "https://mega.nz/file/abc"]
                          (world_download true early_failure_events))
         = before ++ error_report (world_download true early_failure_events) e
       /\ forallb (fun e => negb (reports_outcome e)) before = true.
Proof.
  split; [reflexivity|]. split; [discriminate|]. split; [reflexivity|].
  split; [reflexivity|].
  apply (transfer_ends_with_one_error 7 (initial_store 7) 7
           [lit "https://mega.nz/file/abc"]
           (world_download true early_failure_events));
    [reflexivity | discriminate | reflexivity | reflexivity].
Defined.

(** X3: the calls to Mega and Gofile that one [/gofile] makes are, in
    this order and each at most once: the metadata of the link, the
    download, the list of servers, the upload. *)
Theorem network_calls_in_order
  (MAIN_ADMIN_ID : Z) (st : admin_store) (user_id : Z) (args : list pystr)
  (w : world) :
  exists url name,
    List.filter is_network_call
                (fst (handle_gofile MAIN_ADMIN_ID st user_id args w))
    `prefix_of` pipeline_calls (join (lit " ") args) url name.
Proof.
  unfold handle_gofile.
  destruct (negb (is_admin st user_id)); [exists [], []; apply prefix_nil|].
  destruct args as [|a rest]; [exists [], []; apply prefix_nil|].
  destruct (negb (valid_mega_link (join (lit " ") (a :: rest))));
    [exists [], []; apply prefix_nil|].
  destruct (transfer_has_trace w (join (lit " ") (a :: rest)))
    as (body & tail & url & name & Hfst & _ & Hpre & Htail).
  exists url, name. rewrite Hfst. cbn [List.filter is_network_call].
  rewrite List.filter_app.
  assert (Htl : List.filter is_network_call tail = []).
  { destruct Htail as [[-> _]|(e & -> & _)]; [done|].
    unfold error_report. by destruct (error_edit_ok w). }
  by rewrite Htl, app_nil_r.
Qed.

Lemma dl_phase_not_starting_upload rest :
  forallb dl_phase_effect rest = true -> ~ In (Edit T_starting_upload) rest.
Proof.
  rewrite forallb_forall. intros H Hin. by specialize (H _ Hin).
Qed.

(** X4: the edit that announces the upload is made only after the
    coroutine has seen the completion event set, by a thread that is
    over, with a counter that is not the error value -1. *)
Theorem upload_announced_after_completion
  (w : world) (mega_link : pystr) (total_size : Z) (file_name : pystr) :
  get_public_file w mega_link = inr (total_size, file_name) ->
  In (Edit T_starting_upload) (fst (transfer w mega_link)) ->
  let c := dl_run (sync_with_lock w) mega_link total_size file_name
                  (download_events w)
                  (dl_init [Reply T_starting_download;
                            Mega_get_public_file mega_link]) in
  dl_loop c = P_proceed
  /\ download_complete c = true
  /\ dl_thread c = W_exited
  /\ downloaded c <> -1.
Proof.
  intros Hinfo Hin c. unfold transfer in Hin. rewrite Hinfo in Hin.
  fold c in Hin.
  set (base := [Reply T_starting_download; Mega_get_public_file mega_link]) in *.
  destruct (dl_run_gate (sync_with_lock w) mega_link total_size file_name
              (download_events w) (dl_init base) (dl_init_gate base))
    as (Hg & Hd & Hp & _). fold c in Hg, Hd, Hp.
  destruct (dl_run_shape (sync_with_lock w) mega_link total_size file_name base
              (download_events w) (dl_init base) (dl_init_shape mega_link base))
    as (rest & He & Hq & _). fold c in He.
  assert (Hno : ~ In (Edit T_starting_upload) (dl_effects c)).
  { rewrite He. intros Hx. apply in_app_or in Hx as [Hx|Hx].
    - simpl in Hx. destruct Hx as [Hx|[Hx|[]]]; discriminate.
    - by apply (dl_phase_not_starting_upload rest Hq). }
  assert (Hno' : forall e, ~ In (Edit T_starting_upload)
                             (fst (on_exception w (dl_effects c) e))).
  { intros e. rewrite on_exception_eq. cbn [fst]. intros Hx.
    apply in_app_or in Hx as [Hx|Hx]; [done|].
    unfold error_report in Hx. destruct (error_edit_ok w); simpl in Hx.
    - destruct Hx as [Hx|[]]; discriminate.
    - destruct Hx as [Hx|[Hx|[]]]; discriminate. }
  destruct (dl_loop c) eqn:Hloop; try (by destruct Hno).
  - split; [done|]. specialize (Hg ltac:(auto)). auto.
  - by destruct (Hno' e).
Qed.

Lemma upload_announced_after_completion_witness :
  get_public_file (world_status_error true []) (lit "https://mega.nz/file/abc")
    = inr (1000, lit "a.bin")
  /\ In (Edit T_starting_upload)
        (fst (transfer (world_status_error true []) (lit "https://mega.nz/file/abc")))
  /\ download_complete
       (dl_run true (lit "https://mega.nz/file/abc") 1000 (lit "a.bin")
               (download_events (world_status_error true []))
               (dl_init [Reply T_starting_download;
                         Mega_get_public_file (lit "https://mega.nz/file/abc")]))
     = true.
Proof.
  assert (H1 : get_public_file (world_status_error true [])
                 (lit "https://mega.nz/file/abc") = inr (1000, lit "a.bin"))
    by reflexivity.
  assert (H2 : In (Edit T_starting_upload)
                  (fst (transfer (world_status_error true [])
                                 (lit "https://mega.nz/file/abc")))).
  { vm_compute. auto 10. }
  split; [exact H1|]. split; [exact H2|].
  exact (proj1 (proj2 (upload_announced_after_completion
           (world_status_error true []) (lit "https://mega.nz/file/abc")
           1000 (lit "a.bin") H1 H2))).
Defined.

Lemma dl_step_calm sync link total name c ev :
  download_is_calm ev = true ->
  dl_calm c -> dl_calm (dl_step sync link total name c ev).
Proof.
  unfold dl_calm. intros Hev (Hn & Hs & Hst & Ht1 & Ht2 & Hp).
  destruct c as [n done sz t p l eff]; simpl in *.
  destruct ev as [m| |e| |]; [| | discriminate | |]; simpl.
  - apply Z.leb_le in Hev. auto 10.
  - destruct t; simpl; repeat split; auto; discriminate.
  - unfold download_thread_step; simpl.
    destruct t; simpl; try done; repeat split; auto; discriminate.
  - unfold dl_poller_step; simpl. destruct p; simpl.
    + repeat split; auto; destruct done; discriminate.
    + repeat split; auto; discriminate.
    + repeat split; auto; try discriminate. by intros ? [= <-].
    + specialize (Hst _ eq_refl). repeat split; auto; discriminate.
    + unfold dl_report; simpl.
      destruct (total >? 0); simpl; [|repeat split; auto; discriminate].
      destruct (percent_of n total) as [z|]; simpl;
        [|repeat split; auto; discriminate].
      destruct (significant z l); simpl;
        [|repeat split; auto; discriminate].
      destruct (create_progress_bar z default_width); simpl;
        repeat split; auto; discriminate.
    + destruct (Z.eqb_spec n (-1)); [lia|]. repeat split; auto; discriminate.
    + repeat split; auto.
    + repeat split; auto.
Qed.

Lemma dl_run_calm sync link total name evs c :
  forallb download_is_calm evs = true ->
  dl_calm c -> dl_calm (dl_run sync link total name evs c).
Proof.
  revert c. induction evs as [|ev evs IH]; intros c Hok Hc; simpl; [done|].
  simpl in Hok. apply andb_prop in Hok as [Hev Hok].
  apply IH; [done|]. by apply dl_step_calm.
Qed.

Lemma dl_init_calm effects : dl_calm (dl_init effects).
Proof. unfold dl_calm. simpl. repeat split; try lia; discriminate. Qed.

(** X5: no false alarm. When [mega.download_url] does not raise and the
    directory sizes are not negative, the handler never raises "Download
    failed", whatever the interleaving, and the counter never shows -1. *)
Theorem no_download_failure_without_exception
  (sync : bool) (mega_link : pystr) (total_size : Z) (file_name : pystr)
  (evs : list dl_event) (effects : list effect) :
  forallb download_is_calm evs = true ->
  let c := dl_run sync mega_link total_size file_name evs (dl_init effects) in
  dl_loop c <> P_raised download_failed /\ 0 <= downloaded c.
Proof.
  intros Hok c.
  destruct (dl_run_calm sync mega_link total_size file_name evs
              (dl_init effects) Hok (dl_init_calm effects))
    as (Hn & _ & _ & _ & _ & Hp).
  by split.
Qed.

Lemma no_download_failure_without_exception_witness :
  forallb download_is_calm (download_events (world_status_error true [])) = true
  /\ 0 <= downloaded
            (dl_run true (lit "L") 1000 (lit "a.bin")
                    (download_events (world_status_error true [])) (dl_init [])).
Proof.
  split; [reflexivity|].
  apply (no_download_failure_without_exception true (lit "L") 1000 (lit "a.bin")
           (download_events (world_status_error true [])) []).
  reflexivity.
Defined.

(* ===================================================================== *)
(** ** Properties: who can start a transfer, and the upload counter *)
(* ===================================================================== *)

(** X6: [handle_gofile] calls Mega or Gofile only for a sender who is the
    main admin or a regular admin, with at least one argument, whose
    arguments joined by spaces start with an accepted prefix. *)
Theorem network_call_needs_admin_and_link
  (MAIN_ADMIN_ID : Z) (st : admin_store) (user_id : Z) (args : list pystr)
  (w : world) :
  store_inv MAIN_ADMIN_ID st ->
  existsb is_network_call (fst (handle_gofile MAIN_ADMIN_ID st user_id args w))
    = true ->
  (user_id = MAIN_ADMIN_ID \/ user_id ∈ ADDITIONAL_ADMINS st)
  /\ args <> []
  /\ valid_mega_link (join (lit " ") args) = true.
Proof.
  intros Hinv. unfold handle_gofile.
  destruct (is_admin st user_id) eqn:Hadmin; [|discriminate]. cbn [negb].
  destruct args as [|a rest]; [discriminate|].
  destruct (valid_mega_link (join (lit " ") (a :: rest))); [|discriminate].
  intros _. split; [|done]. by apply (is_admin_inv MAIN_ADMIN_ID st user_id Hinv).
Qed.

Lemma network_call_needs_admin_and_link_witness :
  store_inv 7 (initial_store 7)
  /\ existsb is_network_call
       (fst (handle_gofile 7 (initial_store 7) 7 [lit "https://mega.nz/file/abc"]
                           (world_download true []))) = true
  /\ valid_mega_link (join (lit " ") [lit "https://mega.nz/file/abc"]) = true.
Proof.
  split; [apply initial_store_inv|]. split; [reflexivity|].
  apply (network_call_needs_admin_and_link 7 (initial_store 7) 7
           [lit "https://mega.nz/file/abc"] (world_download true []));
    [apply initial_store_inv | reflexivity].
Defined.

Lemma up_step_counter sync url size name c ev :
  up_counter_inv c ->
  up_counter_inv (up_step sync url size name c ev)
  /\ uploaded c <= uploaded (up_step sync url size name c ev).
Proof.
  unfold up_counter_inv. intros [Heq Hpos].
  destruct ev as [e|n|r|e| |].
  - destruct c as [u pf done t q l eff]; simpl in *. destruct t; simpl; lia.
  - destruct c as [u pf done t q l eff]; simpl in *.
    destruct t; simpl; try lia.
    unfold ProgressFile_read; simpl.
    destruct (Z.gtb_spec n 0); simpl; lia.
  - destruct c as [u pf done t q l eff]; simpl in *. destruct t; simpl; lia.
  - destruct c as [u pf done t q l eff]; simpl in *. destruct t; simpl; lia.
  - destruct c as [u pf done t q l eff]; simpl in *.
    unfold upload_thread_step; simpl. destruct t; simpl; lia.
  - unfold up_step, up_poller_step. destruct (up_loop c) eqn:Hq.
    1-3, 5-6: destruct c; simpl in *; lia.
    destruct (up_report_fields size name c current_uploaded) as (_ & _ & Hu & _).
    assert (Hpf : pf_uploaded (up_report size name c current_uploaded)
                  = pf_uploaded c).
    { unfold up_report. destruct c as [u pf done t q l eff]; simpl.
      destruct (size >? 0); [|done].
      destruct (percent_of current_uploaded size) as [p|]; [|done].
      destruct (significant p l); [|done].
      by destruct (create_progress_bar p default_width). }
    rewrite Hu, Hpf. lia.
Qed.

Lemma up_run_counter sync url size name evs c :
  up_counter_inv c ->
  up_counter_inv (up_run sync url size name evs c)
  /\ uploaded c <= uploaded (up_run sync url size name evs c).
Proof.
  revert c. induction evs as [|ev evs IH]; intros c H; simpl; [split; [done|lia]|].
  destruct (up_step_counter sync url size name c ev H) as [H1 H2].
  destruct (IH _ H1) as [H3 H4]. split; [done|lia].
Qed.

(** X7: the byte counter that the upload loop reads is the count kept by
    [ProgressFile]; it is never negative, so never the error value -1 even
    when the upload fails, and it never decreases. *)
Theorem upload_counter_never_negative
  (sync : bool) (upload_url : pystr) (file_size : Z) (file_name : pystr)
  (evs more : list up_event) (effects : list effect) :
  let c := up_run sync upload_url file_size file_name evs (up_init effects) in
  let c' := up_run sync upload_url file_size file_name (evs ++ more)
                   (up_init effects) in
  uploaded c = pf_uploaded c
  /\ 0 <= uploaded c
  /\ uploaded c <= uploaded c'.
Proof.
  intros c c'.
  assert (H0 : up_counter_inv (up_init effects)) by (split; simpl; lia).
  destruct (up_run_counter sync upload_url file_size file_name evs _ H0)
    as [[Heq Hpos] _]. fold c in Heq, Hpos.
  split; [done|]. split; [done|].
  subst c'. unfold up_run. rewrite fold_left_app.
  fold (up_run sync upload_url file_size file_name evs (up_init effects)).
  fold c.
  by destruct (up_run_counter sync upload_url file_size file_name more c
                 (conj Heq Hpos)) as [_ H].
Qed.

(* ===================================================================== *)
(** ** Properties: percentages and bars *)
(* ===================================================================== *)

Lemma percent_table_ok_all :
  forallb percent_table_ok (List.map Z.of_nat (List.seq 0 1001)) = true.
Proof. vm_compute. reflexivity. Qed.

(** X8: for a total of 1000 bytes the percentage of line 317 is the
    integer quotient floor(s / 10) for every size s from 0 to 1000, except
    at 290, 570 and 580 bytes, where the float product falls just below
    the integer and [int()] gives 28, 56 and 57. *)
Theorem percent_of_1000 (s : Z) :
  0 <= s <= 1000 ->
  percent_of s 1000
  = Some (if existsb (Z.eqb s) rounded_down_sizes then s / 10 - 1 else s / 10).
Proof.
  intros Hs. pose proof percent_table_ok_all as Hall.
  rewrite forallb_forall in Hall.
  assert (Hin : In s (List.map Z.of_nat (List.seq 0 1001))).
  { apply in_map_iff. exists (Z.to_nat s). split; [lia|]. apply in_seq. lia. }
  specialize (Hall s Hin). unfold percent_table_ok in Hall.
  destruct (percent_of s 1000) as [p|]; [|discriminate].
  apply Z.eqb_eq in Hall. by rewrite Hall.
Qed.

Lemma percent_of_1000_witness :
  0 <= 290 <= 1000 /\ percent_of 290 1000 = Some 28.
Proof.
  split; [lia|]. apply (percent_of_1000 290). lia.
Defined.

Lemma wide_bar_ok_all : forallb wide_bar_ok wide_percents = true.
Proof. vm_compute. reflexivity. Qed.

(** X9: for every percentage p from -200 to 200, [create_progress_bar]
    fills trunc(20 * p / 100) glyphs, rounding towards zero, and adds
    20 minus that many empty ones, a negative count giving no glyph. So
    the bar holds exactly 20 glyphs when p is between -4 and 104, more
    empty glyphs than 20 when p is at most -5, and more filled glyphs
    than 20 when p is at least 105. *)
Theorem progress_bar_any_percent (p : Z) :
  -200 <= p <= 200 ->
  let filled := Z.quot (20 * p) 100 in
  exists bar,
    create_progress_bar p 20 = Some bar
    /\ bar = lit "[" ++ List.repeat STAR (Z.to_nat filled)
                 ++ List.repeat HOLLOW (Z.to_nat (20 - filled))
                 ++ lit "] " ++ str_of_int p ++ lit "%"
    /\ count STAR bar = Z.to_nat filled
    /\ count HOLLOW bar = Z.to_nat (20 - filled)
    /\ (-4 <= p <= 104 -> (count STAR bar + count HOLLOW bar = 20)%nat)
    /\ (p <= -5 -> count STAR bar = 0%nat /\ (20 < count HOLLOW bar)%nat)
    /\ (105 <= p -> count HOLLOW bar = 0%nat /\ (20 < count STAR bar)%nat).
Proof.
  intros Hp filled. pose proof wide_bar_ok_all as Hall.
  rewrite forallb_forall in Hall.
  assert (Hin : In p wide_percents).
  { apply in_map_iff. exists (Z.to_nat (p + 200)). split; [lia|].
    apply in_seq. lia. }
  specialize (Hall p Hin). unfold wide_bar_ok in Hall.
  change default_width with 20 in Hall. fold filled in Hall.
  destruct (create_progress_bar p 20) as [bar|]; [|discriminate].
  rewrite !andb_true_iff in Hall.
  destruct Hall as (((((Hb & Hs) & Hh) & H20) & Hlow) & Hhigh).
  apply bool_decide_eq_true_1 in Hb.
  apply Nat.eqb_eq in Hs. apply Nat.eqb_eq in Hh.
  exists bar. split; [done|]. split; [done|]. split; [done|]. split; [done|].
  split; [|split].
  - intros [H1 H2]. apply Z.leb_le in H1, H2. rewrite H1, H2 in H20.
    by apply Nat.eqb_eq in H20.
  - intros H1. apply Z.leb_le in H1. rewrite H1 in Hlow. simpl in Hlow.
    apply andb_prop in Hlow as [Ha Hc].
    apply Nat.eqb_eq in Ha. apply Nat.ltb_lt in Hc. done.
  - intros H1. apply Z.leb_le in H1. rewrite H1 in Hhigh. simpl in Hhigh.
    apply andb_prop in Hhigh as [Ha Hc].
    apply Nat.eqb_eq in Ha. apply Nat.ltb_lt in Hc. done.
Qed.

Lemma progress_bar_any_percent_witness :
  -200 <= -5 <= 200
  /\ create_progress_bar (-5) 20
     = Some (lit "[" ++ List.repeat HOLLOW 21 ++ lit "] -5%").
Proof.
  split; [lia|].
  destruct (progress_bar_any_percent (-5) ltac:(lia)) as (bar & -> & -> & _).
  reflexivity.
Defined.

(** X10: however often the loop polls a 1000-byte download whose sampled
    size does not decrease, it edits the status message at most 20
    times, never twice at the same percent. *)
Theorem download_edits_at_most_20
  (sync : bool) (link name : pystr) (samples : list Z) :
  Sorted Z.le samples ->
  Forall in_range samples ->
  exists percents,
    download_effects sync link name samples
      = Mega_download_url link :: List.map (download_edit name) percents
    /\ NoDup percents
    /\ (length percents <= 20)%nat.
Proof.
  intros Hsorted Hrange.
  apply Sorted_StronglySorted in Hsorted; [|intros x y z; apply Z.le_trans].
  destruct (track_download_spec samples 0 Hsorted Hrange)
    as (percents & l' & Ht & Hss & Hgt & Hiff).
  { intros s p Hin Hp. rewrite List.Forall_forall in Hrange.
    destruct (percent_of_range s (Hrange s Hin)) as (p' & Hp' & ?).
    rewrite Hp in Hp'. injection Hp' as <-. lia. }
  exists percents.
  assert (Hnd : List.NoDup percents).
  { clear -Hss. induction Hss as [|m ms Hms IH Hall]; constructor; [|done].
    intros Hin. rewrite List.Forall_forall in Hall. specialize (Hall m Hin). lia. }
  split; [|split].
  - unfold download_effects, poll_events, dl_run. cbn [fold_left].
    set (c0 := dl_step sync link 1000 name (dl_init []) Dl_worker).
    destruct (dl_run_polls sync link name samples c0 percents l' Hrange)
      as (_ & _ & _ & He); done.
  - by apply NoDup_ListNoDup.
  - change 20%nat with (length every_five).
    apply List.NoDup_incl_length; [done|].
    intros m Hm. apply In_every_five.
    rewrite List.Forall_forall in Hgt. destruct (Hgt m Hm) as [H0 H100].
    apply Hiff in Hm as (Hmod & _). split; [done|lia].
Qed.

Lemma download_edits_at_most_20_witness :
  Sorted Z.le [0; 70; 1000]
  /\ Forall in_range [0; 70; 1000]
  /\ exists percents,
       download_effects true (lit "L") (lit "a.bin") [0; 70; 1000]
         = Mega_download_url (lit "L")
           :: List.map (download_edit (lit "a.bin")) percents
       /\ NoDup percents
       /\ (length percents <= 20)%nat.
Proof.
  assert (Hs : Sorted Z.le [0; 70; 1000]).
  { repeat constructor; lia. }
  assert (Hr : Forall in_range [0; 70; 1000]).
  { repeat constructor; unfold in_range; lia. }
  split; [exact Hs|]. split; [exact Hr|].
  exact (download_edits_at_most_20 true (lit "L") (lit "a.bin") [0; 70; 1000] Hs Hr).
Defined.

Lemma startswith_before (c : N) (p a t : pystr) :
  ~ In c p -> startswith (a ++ c :: t) p = startswith a p.
Proof.
  revert a. induction p as [|x p IH]; intros a Hc; [done|].
  destruct a as [|y a]; simpl.
  - destruct (N.eqb_spec x c) as [->|]; [|done]. destruct Hc. by left.
  - rewrite IH; [done|]. intros Hin. apply Hc. by right.
Qed.

(** X11: whether a link is accepted depends on the first argument only:
    the words after it are joined to it with spaces and go to Mega as
    part of the link, but play no part in the check of line 250. *)
Theorem link_check_reads_first_argument (a : pystr) (rest : list pystr) :
  valid_mega_link (join (lit " ") (a :: rest)) = valid_mega_link a
  /\ exists tail, join (lit " ") (a :: rest) = a ++ tail.
Proof.
  destruct rest as [|b rest]; [split; [done|exists []; by rewrite app_nil_r]|].
  change (join (lit " ") (a :: b :: rest))
    with (a ++ 32%N :: join (lit " ") (b :: rest)).
  split; [|by eexists].
  unfold valid_mega_link. rewrite !startswith_before; [done| |].
  - vm_compute. intuition discriminate.
  - vm_compute. intuition discriminate.
Qed.

(* ===================================================================== *)
(** ** Properties: what the admin commands do to the sets *)
(* ===================================================================== *)

Section AdminCommands.

Variable MAIN_ADMIN_ID : Z.
Variable int_of_str : pystr -> option Z.

(** X12: when the main admin adds an id that is neither the main admin
    nor a regular admin yet, the answer is "added", the id becomes a
    regular admin and passes the access check, and nothing changes for
    any other id. *)
Theorem add_admin_admits
  (a : pystr) (rest : list pystr) (x : Z) (st : admin_store) :
  int_of_str a = Some x ->
  x <> MAIN_ADMIN_ID ->
  x ∉ ADDITIONAL_ADMINS st ->
  let r := add_admin MAIN_ADMIN_ID int_of_str MAIN_ADMIN_ID (a :: rest) st in
  snd r = Replied (Added x (ADDITIONAL_ADMINS (fst r)))
  /\ is_admin (fst r) x = true
  /\ x ∈ ADDITIONAL_ADMINS (fst r)
  /\ (forall y, y <> x -> is_admin (fst r) y = is_admin st y)
  /\ (forall y, y <> x -> y ∈ ADDITIONAL_ADMINS (fst r) <-> y ∈ ADDITIONAL_ADMINS st).
Proof.
  intros Ha Hx Hnew r. subst r. unfold add_admin.
  rewrite Z.eqb_refl, Ha. cbn [negb].
  destruct (Z.eqb_spec x MAIN_ADMIN_ID) as [|_]; [done|].
  rewrite bool_decide_eq_false_2 by done. cbn [fst snd ADMINS ADDITIONAL_ADMINS].
  split; [done|]. unfold is_admin. cbn [ADMINS].
  split; [apply bool_decide_eq_true; set_solver|].
  split; [set_solver|]. split.
  - intros y Hy. apply bool_decide_ext. set_solver.
  - intros y Hy. set_solver.
Qed.

(** X13: asking again changes nothing. Adding the main admin or an id
    that is already a regular admin, and removing an id that is not a
    regular admin, leave both sets as they were and say why. *)
Theorem known_and_unknown_ids_change_nothing
  (a : pystr) (rest : list pystr) (x : Z) (st : admin_store) :
  int_of_str a = Some x ->
  (x = MAIN_ADMIN_ID ->
   add_admin MAIN_ADMIN_ID int_of_str MAIN_ADMIN_ID (a :: rest) st
   = (st, Replied Already_main_admin))
  /\ (x <> MAIN_ADMIN_ID -> x ∈ ADDITIONAL_ADMINS st ->
      add_admin MAIN_ADMIN_ID int_of_str MAIN_ADMIN_ID (a :: rest) st
      = (st, Replied (Already_regular_admin x)))
  /\ (x <> MAIN_ADMIN_ID -> x ∉ ADDITIONAL_ADMINS st ->
      remove_admin MAIN_ADMIN_ID int_of_str MAIN_ADMIN_ID (a :: rest) st
      = (st, Replied (Not_regular_admin x))).
Proof.
  intros Ha. unfold add_admin, remove_admin. rewrite Z.eqb_refl, Ha. cbn [negb].
  split; [|split].
  - intros ->. by rewrite Z.eqb_refl.
  - intros Hx Hin. destruct (Z.eqb_spec x MAIN_ADMIN_ID); [done|].
    by rewrite bool_decide_eq_true_2.
  - intros Hx Hin. destruct (Z.eqb_spec x MAIN_ADMIN_ID); [done|].
    by rewrite bool_decide_eq_false_2.
Qed.

(** X14: a request that cannot be carried out changes nothing, for both
    commands: a sender other than the main admin is denied before the
    arguments are looked at; the main admin without an argument gets the
    usage line; the main admin with a first argument that is not a number
    is told so. *)
Theorem bad_requests_change_nothing
  (user_id : Z) (args : list pystr) (st : admin_store) :
  (user_id <> MAIN_ADMIN_ID ->
   add_admin MAIN_ADMIN_ID int_of_str user_id args st = (st, Replied Access_denied)
   /\ remove_admin MAIN_ADMIN_ID int_of_str user_id args st
      = (st, Replied Access_denied))
  /\ (user_id = MAIN_ADMIN_ID -> args = [] ->
      add_admin MAIN_ADMIN_ID int_of_str user_id args st = (st, Replied Usage)
      /\ remove_admin MAIN_ADMIN_ID int_of_str user_id args st
         = (st, Replied Usage))
  /\ (user_id = MAIN_ADMIN_ID ->
      forall a rest, args = a :: rest -> int_of_str a = None ->
      add_admin MAIN_ADMIN_ID int_of_str user_id args st
        = (st, Replied Invalid_user_id)
      /\ remove_admin MAIN_ADMIN_ID int_of_str user_id args st
         = (st, Replied Invalid_user_id)).
Proof.
  unfold add_admin, remove_admin. split; [|split].
  - intros Hne. by destruct (Z.eqb_spec user_id MAIN_ADMIN_ID).
  - intros -> ->. by rewrite Z.eqb_refl.
  - intros -> a rest -> Ha. by rewrite Z.eqb_refl, Ha.
Qed.

(** X15: when the main admin removes a regular admin, the answer is
    "removed", the id no longer passes the access check, and nothing
    changes for any other id. *)
Theorem remove_admin_shuts_out
  (a : pystr) (rest : list pystr) (x : Z) (st : admin_store) :
  store_inv MAIN_ADMIN_ID st ->
  int_of_str a = Some x ->
  x ∈ ADDITIONAL_ADMINS st ->
  let r := remove_admin MAIN_ADMIN_ID int_of_str MAIN_ADMIN_ID (a :: rest) st in
  snd r = Replied (Removed x (ADDITIONAL_ADMINS (fst r)))
  /\ is_admin (fst r) x = false
  /\ (x ∉ ADDITIONAL_ADMINS (fst r))
  /\ (forall y, y <> x -> is_admin (fst r) y = is_admin st y).
Proof.
  intros [Hall Hmain] Ha Hin r. subst r. unfold remove_admin.
  rewrite Z.eqb_refl, Ha. cbn [negb].
  destruct (Z.eqb_spec x MAIN_ADMIN_ID) as [->|Hx]; [done|].
  rewrite bool_decide_eq_true_2 by done. cbn [negb].
  unfold set_remove. destruct (decide (x ∈ ADMINS st)) as [_|Hout].
  2: { destruct Hout. rewrite Hall. set_solver. }
  cbn [fst snd ADMINS ADDITIONAL_ADMINS]. split; [done|].
  unfold is_admin. cbn [ADMINS].
  split; [apply bool_decide_eq_false; set_solver|].
  split; [set_solver|].
  intros y Hy. apply bool_decide_ext. set_solver.
Qed.

(** X16: adding an id and then removing it gives back the two sets as
    they were; so does removing a regular admin and adding it again. *)
Theorem add_then_remove_restores
  (a : pystr) (rest rest' : list pystr) (x : Z) (st : admin_store) :
  store_inv MAIN_ADMIN_ID st ->
  int_of_str a = Some x ->
  x <> MAIN_ADMIN_ID ->
  (x ∉ ADDITIONAL_ADMINS st ->
   fst (remove_admin MAIN_ADMIN_ID int_of_str MAIN_ADMIN_ID (a :: rest')
          (fst (add_admin MAIN_ADMIN_ID int_of_str MAIN_ADMIN_ID (a :: rest) st)))
   = st)
  /\ (x ∈ ADDITIONAL_ADMINS st ->
      fst (add_admin MAIN_ADMIN_ID int_of_str MAIN_ADMIN_ID (a :: rest')
             (fst (remove_admin MAIN_ADMIN_ID int_of_str MAIN_ADMIN_ID (a :: rest) st)))
      = st).
Proof.
  intros [Hall Hmain] Ha Hx. unfold add_admin, remove_admin, set_remove.
  rewrite Z.eqb_refl, Ha. cbn [negb].
  destruct (Z.eqb_spec x MAIN_ADMIN_ID) as [|_]; [done|].
  destruct st as [admins additional]. cbn [ADMINS ADDITIONAL_ADMINS] in *.
  assert (Hsub : forall y, y ∈ additional -> y ∈ admins) by (rewrite Hall; set_solver).
  split; intros Hin.
  - assert (Hout : x ∉ admins) by (rewrite Hall; set_solver).
    rewrite (bool_decide_eq_false_2 (x ∈ additional)) by done.
    cbn [fst ADMINS ADDITIONAL_ADMINS].
    rewrite bool_decide_eq_true_2 by set_solver. cbn [negb].
    rewrite decide_True by set_solver. cbn [fst]. f_equal; set_solver.
  - rewrite (bool_decide_eq_true_2 (x ∈ additional)) by done. cbn [negb].
    rewrite decide_True by auto. cbn [fst ADMINS ADDITIONAL_ADMINS].
    rewrite bool_decide_eq_false_2 by set_solver. cbn [fst].
    f_equal; apply set_eq; intros y; destruct (decide (y = x)) as [->|];
      set_solver.
Qed.

(** X17: in every state the two commands can produce, the main admin
    passes the access check, so the full set is never empty; every regular
    admin is in the full set; and [remove_admin] never lets the [KeyError]
    of [ADMINS.remove] escape. *)
Theorem reachable_stores_are_sound (cs : list admin_command) :
  let st := run_commands MAIN_ADMIN_ID int_of_str cs in
  is_admin st MAIN_ADMIN_ID = true
  /\ ADMINS st <> ∅
  /\ ADDITIONAL_ADMINS st ⊆ ADMINS st
  /\ (forall user_id args,
        snd (remove_admin MAIN_ADMIN_ID int_of_str user_id args st)
        <> Escaped_KeyError).
Proof.
  intros st.
  pose proof (run_commands_inv MAIN_ADMIN_ID int_of_str cs) as Hinv.
  fold st in Hinv. destruct Hinv as [Hall Hmain].
  split; [apply bool_decide_eq_true; rewrite Hall; set_solver|].
  split; [rewrite Hall; set_solver|].
  split; [rewrite Hall; set_solver|].
  intros user_id args.
  by apply (remove_admin_inv MAIN_ADMIN_ID int_of_str user_id args st).
Qed.

(** X18: a regular admin passes the access check but cannot manage the
    admins: its [/admin] and [/remove] are denied and change nothing. *)
Theorem regular_admins_cannot_manage
  (cs : list admin_command) (x : Z) (args : list pystr) :
  let st := run_commands MAIN_ADMIN_ID int_of_str cs in
  x ∈ ADDITIONAL_ADMINS st ->
  is_admin st x = true
  /\ add_admin MAIN_ADMIN_ID int_of_str x args st = (st, Replied Access_denied)
  /\ remove_admin MAIN_ADMIN_ID int_of_str x args st = (st, Replied Access_denied).
Proof.
  intros st Hin.
  pose proof (run_commands_inv MAIN_ADMIN_ID int_of_str cs) as Hinv.
  fold st in Hinv. destruct Hinv as [Hall Hmain].
  assert (Hx : x <> MAIN_ADMIN_ID) by (intros ->; done).
  split; [apply bool_decide_eq_true; rewrite Hall; set_solver|].
  unfold add_admin, remove_admin.
  by destruct (Z.eqb_spec x MAIN_ADMIN_ID).
Qed.

End AdminCommands.

Lemma add_admin_admits_witness :
  decimal_id (lit "9") = Some 9
  /\ 9 <> 7
  /\ (9 ∉ ADDITIONAL_ADMINS (initial_store 7))
  /\ is_admin (fst (add_admin 7 decimal_id 7 [lit "9"] (initial_store 7))) 9 = true.
Proof.
  assert (H : 9 ∉ ADDITIONAL_ADMINS (initial_store 7)) by (simpl; set_solver).
  split; [reflexivity|]. split; [lia|]. split; [exact H|].
  apply (add_admin_admits 7 decimal_id (lit "9") [] 9 (initial_store 7));
    [reflexivity | lia | exact H].
Defined.

Lemma known_and_unknown_ids_change_nothing_witness :
  decimal_id (lit "7") = Some 7
  /\ add_admin 7 decimal_id 7 [lit "7"] (initial_store 7)
     = (initial_store 7, Replied Already_main_admin).
Proof.
  split; [reflexivity|].
  apply (known_and_unknown_ids_change_nothing 7 decimal_id (lit "7") [] 7
           (initial_store 7)); reflexivity.
Defined.

Lemma store_7_9_inv : store_inv 7 store_7_9.
Proof. apply add_admin_inv, initial_store_inv. Qed.

Lemma store_7_9_regular : 9 ∈ ADDITIONAL_ADMINS store_7_9.
Proof. unfold store_7_9. simpl. set_solver. Qed.

Lemma remove_admin_shuts_out_witness :
  store_inv 7 store_7_9
  /\ decimal_id (lit "9") = Some 9
  /\ 9 ∈ ADDITIONAL_ADMINS store_7_9
  /\ is_admin (fst (remove_admin 7 decimal_id 7 [lit "9"] store_7_9)) 9 = false.
Proof.
  split; [apply store_7_9_inv|]. split; [reflexivity|].
  split; [apply store_7_9_regular|].
  apply (remove_admin_shuts_out 7 decimal_id (lit "9") [] 9 store_7_9);
    [apply store_7_9_inv | reflexivity | apply store_7_9_regular].
Defined.

Lemma add_then_remove_restores_witness :
  store_inv 7 (initial_store 7)
  /\ decimal_id (lit "9") = Some 9
  /\ 9 <> 7
  /\ (9 ∉ ADDITIONAL_ADMINS (initial_store 7))
  /\ fst (remove_admin 7 decimal_id 7 [lit "9"]
            (fst (add_admin 7 decimal_id 7 [lit "9"] (initial_store 7))))
     = initial_store 7.
Proof.
  assert (H : 9 ∉ ADDITIONAL_ADMINS (initial_store 7)) by (simpl; set_solver).
  split; [apply initial_store_inv|]. split; [reflexivity|]. split; [lia|].
  split; [exact H|].
  apply (add_then_remove_restores 7 decimal_id (lit "9") [] [] 9 (initial_store 7));
    [apply initial_store_inv | reflexivity | lia | exact H].
Defined.

Lemma regular_admins_cannot_manage_witness :
  9 ∈ ADDITIONAL_ADMINS (run_commands 7 decimal_id [Cmd_admin 7 [lit "9"]])
  /\ add_admin 7 decimal_id 9 [lit "5"]
       (run_commands 7 decimal_id [Cmd_admin 7 [lit "9"]])
     = (run_commands 7 decimal_id [Cmd_admin 7 [lit "9"]], Replied Access_denied).
Proof.
  split; [apply store_7_9_regular|].
  apply (regular_admins_cannot_manage 7 decimal_id [Cmd_admin 7 [lit "9"]] 9
           [lit "5"]).
  apply store_7_9_regular.
Defined.

(* ===================================================================== *)
(** ** Properties: the notifier and the start of the bot *)
(* ===================================================================== *)

Lemma notify_each_chats send message admins :
  List.map notice_chat (notify_each send message admins) = List.map Some admins.
Proof.
  induction admins as [|a admins IH]; simpl; [done|].
  rewrite IH. by destruct (send a).
Qed.

Lemma notify_each_in send message admins id :
  In id admins ->
  In (match send id with
      | None => Notified id message
      | Some e => Notify_failed id e
      end) (notify_each send message admins).
Proof.
  induction admins as [|a admins IH]; simpl; [done|].
  intros [->|Hin]; [by left|right; auto].
Qed.

(** X19: [send_alive_notification] tries every admin exactly once,
    whichever sends fail: a failure for one admin is recorded and the loop
    goes on, so every admin whose send works is notified. *)
Theorem alive_notification_tries_every_admin
  (MAIN_ADMIN_ID : Z) (st : admin_store) (send : Z -> option exn) :
  ADMINS st <> ∅ ->
  let ns := send_alive_notification MAIN_ADMIN_ID st send in
  List.map notice_chat ns = List.map Some (elements (ADMINS st))
  /\ NoDup (List.map notice_chat ns)
  /\ length ns = size (ADMINS st)
  /\ (forall id, id ∈ ADMINS st -> send id = None ->
                 In (Notified id (alive_message MAIN_ADMIN_ID st)) ns)
  /\ (forall id e, id ∈ ADMINS st -> send id = Some e ->
                   In (Notify_failed id e) ns).
Proof.
  intros Hne ns. subst ns. unfold send_alive_notification.
  rewrite decide_False by done.
  rewrite notify_each_chats. split; [done|].
  split; [apply NoDup_fmap_2; [intros x y [=]; done | apply NoDup_elements]|].
  split.
  { rewrite <- (length_map notice_chat), notify_each_chats, length_map. done. }
  split.
  - intros id Hin Hs.
    pose proof (notify_each_in send (alive_message MAIN_ADMIN_ID st)
                  (elements (ADMINS st)) id) as H.
    rewrite Hs in H. apply H. apply list_elem_of_In. by apply elem_of_elements.
  - intros id e Hin Hs.
    pose proof (notify_each_in send (alive_message MAIN_ADMIN_ID st)
                  (elements (ADMINS st)) id) as H.
    rewrite Hs in H. apply H. apply list_elem_of_In. by apply elem_of_elements.
Qed.

Lemma alive_notification_tries_every_admin_witness :
  ADMINS store_7_9 <> ∅
  /\ length (send_alive_notification 7 store_7_9
               (fun id => if id =? 9 then Some (lit "blocked") else None))
     = size (ADMINS store_7_9).
Proof.
  assert (H : ADMINS store_7_9 <> ∅).
  { unfold store_7_9. simpl. set_solver. }
  split; [exact H|].
  apply (alive_notification_tries_every_admin 7 store_7_9
           (fun id => if id =? 9 then Some (lit "blocked") else None) H).
Defined.

(** X20: the bot starts only with a token that is set and not empty and
    with a main admin id other than 0, the token being checked first.
    When it starts, the alive notification is tried for one chat, the
    main admin, and says that there is no regular admin. *)
Theorem startup_checks_then_notifies
  (MAIN_ADMIN_ID : Z) (BOT_TOKEN : option pystr) (send : Z -> option exn) :
  let r := startup MAIN_ADMIN_ID BOT_TOKEN send in
  (BOT_TOKEN = None \/ BOT_TOKEN = Some [] <->
   r = inl (lit "BOT_TOKEN environment variable not set!"))
  /\ ((exists token, BOT_TOKEN = Some token /\ token <> []) /\ MAIN_ADMIN_ID = 0 <->
      r = inl (lit "MAIN_ADMIN_ID environment variable not set or invalid!"))
  /\ (forall ns, r = inr ns ->
        MAIN_ADMIN_ID <> 0
        /\ ns = [match send MAIN_ADMIN_ID with
                 | None => Notified MAIN_ADMIN_ID
                             (alive_message MAIN_ADMIN_ID (initial_store MAIN_ADMIN_ID))
                 | Some e => Notify_failed MAIN_ADMIN_ID e
                 end]
        /\ regular_admins_text (ADDITIONAL_ADMINS (initial_store MAIN_ADMIN_ID))
           = lit "None").
Proof.
  intros r. subst r. unfold startup, main.
  assert (Hsend : send_alive_notification MAIN_ADMIN_ID
                    (initial_store MAIN_ADMIN_ID) send
                  = [match send MAIN_ADMIN_ID with
                     | None => Notified MAIN_ADMIN_ID
                                 (alive_message MAIN_ADMIN_ID
                                    (initial_store MAIN_ADMIN_ID))
                     | Some e => Notify_failed MAIN_ADMIN_ID e
                     end]).
  { unfold send_alive_notification. cbn [ADMINS initial_store].
    rewrite decide_False by set_solver. by rewrite elements_singleton. }
  destruct BOT_TOKEN as [[|c token]|].
  - split; [split; [done|auto]|]. split; [|done].
    split; [intros [(t & [= <-] & Ht) _]; done | discriminate].
  - destruct (Z.eqb_spec MAIN_ADMIN_ID 0) as [H0|H0].
    + split; [split; [intros [|]; done | discriminate]|].
      split; [|done]. split; [done|]. intros _. split; [|done]. by eexists.
    + split; [split; [intros [|]; done | discriminate]|].
      split; [split; [intros [_ ?]; done | discriminate]|].
      intros ns [= <-]. split; [done|]. split; [exact Hsend|reflexivity].
  - split; [split; [done|auto]|]. split; [|done].
    split; [intros [(t & [=] & _) _] | discriminate].
Qed.

(* ===================================================================== *)
(** ** Properties: [/start] and the dispatch of commands *)
(* ===================================================================== *)

Lemma contains_app_skip (new s p : pystr) (p0 : N) (p' : pystr) :
  p = p0 :: p' -> ~ In p0 new -> contains (new ++ s) p = contains s p.
Proof.
  intros -> Hnew. induction new as [|n new IH]; [done|].
  cbn [app contains startswith].
  destruct (N.eqb_spec p0 n) as [->|_]; [destruct Hnew; by left|].
  cbn [andb orb]. apply IH. intros Hin. apply Hnew. by right.
Qed.

(** A string without any character of [new] that starts what [replace]
    returns also starts what [replace] was given. *)
Lemma startswith_replace_from (old new s p : pystr) :
  new <> [] -> (forall c, In c new -> ~ In c p) ->
  startswith (replace_from old new s 0) p = true -> startswith s p = true.
Proof.
  intros Hnew Hdisj. revert p Hdisj.
  induction s as [|c s IH]; intros p Hdisj; [done|].
  destruct p as [|p0 p]; [done|].
  cbn [replace_from].
  destruct (startswith (c :: s) old).
  - destruct new as [|n new]; [done|]. cbn [app startswith].
    destruct (N.eqb_spec p0 n) as [->|_]; [|done].
    destruct (Hdisj n); by left.
  - cbn [startswith]. destruct (p0 =? c)%N; [|done]. cbn [andb].
    apply IH. intros x Hx Hin. apply (Hdisj x Hx). by right.
Qed.

(** [replace] does not bring in a string that shares no character with
    [new]. *)
Lemma contains_replace_from (old new p s : pystr) (skip : nat) :
  new <> [] -> p <> [] -> (forall c, In c new -> ~ In c p) ->
  contains s p = false -> contains (replace_from old new s skip) p = false.
Proof.
  intros Hnew Hp Hdisj. revert skip.
  induction s as [|c s IH]; intros skip Hs; [by destruct p|].
  cbn [contains] in Hs. apply orb_false_iff in Hs as [Hhead Htail].
  destruct skip as [|k]; cbn [replace_from]; [|by apply IH].
  destruct (startswith (c :: s) old) eqn:Hold.
  - destruct p as [|p0 p']; [done|].
    rewrite (contains_app_skip new _ (p0 :: p') p0 p' eq_refl); [by apply IH|].
    intros Hin. apply (Hdisj p0 Hin). by left.
  - cbn [contains]. rewrite (IH 0%nat Htail), orb_false_r.
    destruct (startswith (c :: replace_from old new s 0) (p)) eqn:Hst; [|done].
    assert (Hst' : startswith (replace_from old new (c :: s) 0) p = true).
    { cbn [replace_from]. by rewrite Hold. }
    apply (startswith_replace_from old new (c :: s) p Hnew Hdisj) in Hst'.
    by rewrite Hst' in Hhead.
Qed.

(** After [replace], [old] is gone, when it shares no character with
    [new]. *)
Lemma replace_from_removes (old new s : pystr) (skip : nat) :
  new <> [] -> old <> [] -> (forall c, In c new -> ~ In c old) ->
  contains (replace_from old new s skip) old = false.
Proof.
  intros Hnew Hold Hdisj. revert skip.
  induction s as [|c s IH]; intros skip; [by destruct old|].
  destruct skip as [|k]; cbn [replace_from]; [|by apply IH].
  destruct (startswith (c :: s) old) eqn:Hst.
  - destruct old as [|o0 old']; [done|].
    rewrite (contains_app_skip new _ (o0 :: old') o0 old' eq_refl); [by apply IH|].
    intros Hin. apply (Hdisj o0 Hin). by left.
  - cbn [contains]. rewrite (IH 0%nat), orb_false_r.
    destruct (startswith (c :: replace_from old new s 0) old) eqn:Hst'; [|done].
    assert (H : startswith (replace_from old new (c :: s) 0) old = true).
    { cbn [replace_from]. by rewrite Hst. }
    apply (startswith_replace_from old new (c :: s) old Hnew Hdisj) in H.
    by rewrite H in Hst.
Qed.

Lemma markdown_fallback_no_bold (caption : pystr) :
  contains (markdown_fallback caption) (lit "<b>") = false
  /\ contains (markdown_fallback caption) (lit "</b>") = false.
Proof.
  unfold markdown_fallback, replace.
  change (lit "<b>") with [60; 98; 62]%N.
  change (lit "</b>") with [60; 47; 98; 62]%N.
  change (lit "**") with [42; 42]%N.
  assert (H1 : forall c, In c [42; 42]%N -> ~ In c [60; 98; 62]%N).
  { intros c [<-|[<-|[]]] Hin; simpl in Hin; intuition discriminate. }
  assert (H2 : forall c, In c [42; 42]%N -> ~ In c [60; 47; 98; 62]%N).
  { intros c [<-|[<-|[]]] Hin; simpl in Hin; intuition discriminate. }
  split.
  - apply contains_replace_from; [done|done|exact H1|].
    by apply replace_from_removes.
  - by apply replace_from_removes.
Qed.

(** X21: [/start] tries the animation first and sends nothing else when
    it goes through. When it fails, the caption is sent once more as
    text, and in that text no [<b>] and no [</b>] is left, for every
    main admin id and every set of regular admins. The caption is the
    restricted one exactly for the senders that [/gofile] turns away. *)
Theorem start_sends_caption_once_or_falls_back
  (MAIN_ADMIN_ID : Z) (WELCOME_ANIMATION_URL : pystr) (st : admin_store)
  (user_id chat_id : Z) (animation_error : option exn) (w : world)
  (args : list pystr) :
  let caption := if is_admin st user_id
                 then admin_caption MAIN_ADMIN_ID st
                 else restricted_caption MAIN_ADMIN_ID in
  let sent := start MAIN_ADMIN_ID WELCOME_ANIMATION_URL st user_id chat_id
                    animation_error in
  (animation_error = None ->
   sent = [Send_animation chat_id WELCOME_ANIMATION_URL caption])
  /\ (forall e, animation_error = Some e ->
        exists text,
          sent = [Send_animation_failed chat_id WELCOME_ANIMATION_URL caption;
                  Reply_markdown text]
          /\ contains text (lit "<b>") = false
          /\ contains text (lit "</b>") = false)
  /\ (caption = restricted_caption MAIN_ADMIN_ID <->
      handle_gofile MAIN_ADMIN_ID st user_id args w
      = ([Reply (T_access_denied MAIN_ADMIN_ID)], Returned)).
Proof.
  intros caption sent. subst sent. unfold start.
  replace (if negb (is_admin st user_id)
           then restricted_caption MAIN_ADMIN_ID
           else admin_caption MAIN_ADMIN_ID st) with caption
    by (subst caption; by destruct (is_admin st user_id)).
  split; [by intros ->|]. split.
  - intros e ->. exists (markdown_fallback caption). split; [done|].
    apply markdown_fallback_no_bold.
  - subst caption. unfold handle_gofile.
    destruct (is_admin st user_id); cbn [negb]; [|done].
    split.
    + intros Heq. apply (f_equal (fun s => nth 0 s 0%N)) in Heq.
      vm_compute in Heq. discriminate.
    + destruct args as [|a rest]; [discriminate|].
      destruct (negb (valid_mega_link (join (lit " ") (a :: rest))));
        [discriminate|].
      intros H. apply (f_equal fst) in H.
      destruct (transfer_has_trace w (join (lit " ") (a :: rest)))
        as (body & tail & url & name & Hfst & _).
      rewrite Hfst in H. discriminate.
Qed.

Lemma dispatch_registered (c : pystr) :
  dispatch registered_handlers c
  = Some (if bool_decide (c = lit "start") then Cb_start
          else if bool_decide (c = lit "admin") then Cb_add_admin
          else if bool_decide (c = lit "remove") then Cb_remove_admin
          else if bool_decide (c = lit "gofile") then Cb_handle_gofile
          else Cb_start).
Proof.
  unfold registered_handlers. cbn [dispatch accepts].
  repeat case_bool_decide; done.
Qed.

Lemma on_update_inv MAIN_ADMIN_ID int_of_str st u :
  store_inv MAIN_ADMIN_ID st ->
  store_inv MAIN_ADMIN_ID (on_update MAIN_ADMIN_ID int_of_str st u).
Proof.
  intros H. unfold on_update.
  destruct (dispatch registered_handlers (upd_command u)) as [[]|]; try done.
  - by apply add_admin_inv.
  - by apply remove_admin_inv.
Qed.

Lemma fold_on_update_inv MAIN_ADMIN_ID int_of_str us st :
  store_inv MAIN_ADMIN_ID st ->
  store_inv MAIN_ADMIN_ID
    (List.fold_left (on_update MAIN_ADMIN_ID int_of_str) us st).
Proof.
  revert st. induction us as [|u us IH]; intros st H; simpl; [done|].
  apply IH. by apply on_update_inv.
Qed.

(** X22: whatever command messages arrive, from whomever and in whatever
    order, the full set stays the main admin together with the regular
    admins; a message changes the sets only if the main admin sent it and
    its command is [admin] or [remove]: [/start], [/gofile] and every
    other command, which goes to [start], leave them alone. *)
Theorem only_main_admin_changes_the_sets
  (MAIN_ADMIN_ID : Z) (int_of_str : pystr -> option Z)
  (us : list update) (u : update) :
  let st := on_updates MAIN_ADMIN_ID int_of_str us in
  store_inv MAIN_ADMIN_ID st
  /\ (effective_user u <> MAIN_ADMIN_ID
      \/ (upd_command u <> lit "admin" /\ upd_command u <> lit "remove") ->
      on_update MAIN_ADMIN_ID int_of_str st u = st).
Proof.
  intros st. split.
  { apply fold_on_update_inv, initial_store_inv. }
  unfold on_update. rewrite dispatch_registered.
  intros [Huser|[Hadmin Hremove]].
  - repeat case_bool_decide; try done.
    + unfold add_admin. by destruct (Z.eqb_spec (effective_user u) MAIN_ADMIN_ID).
    + unfold remove_admin.
      by destruct (Z.eqb_spec (effective_user u) MAIN_ADMIN_ID).
  - repeat case_bool_decide; done.
Qed.

(* ===================================================================== *)
(** ** Properties: the edits of the upload loop *)
(* ===================================================================== *)

Lemma count_upload_edits_app l1 l2 :
  count_upload_edits (l1 ++ l2) = count_upload_edits l1 + count_upload_edits l2.
Proof.
  unfold count_upload_edits. rewrite List.filter_app, length_app. lia.
Qed.

Lemma up_step_edits sync url name base c ev rest :
  0 <= bytes_read rest ->
  up_edits_inv base (bytes_read (ev :: rest)) c ->
  up_edits_inv base (bytes_read rest) (up_step sync url 1000 name c ev).
Proof.
  unfold up_edits_inv, up_seen.
  intros Hrest (Hpf & H0 & Hs & Hroom & Hmod & Hl & Hlow & Hcount).
  destruct c as [u pf done t q l eff].
  cbn [up_loop uploaded pf_uploaded up_last_update up_effects] in *. subst pf.
  assert (Hweak : forall v, u <= v ->
            forall s p, v <= s <= 1000 -> percent_of s 1000 = Some p -> l <= p).
  { intros v Hv s p Hsp Hp. destruct q; apply (Hlow s p); auto; lia. }
  destruct ev as [e|n|r|e| |]; cbn [bytes_read] in Hroom.
  - simpl. destruct t; simpl; auto 10.
  - simpl. destruct t; simpl; try (repeat split; auto; lia).
    unfold ProgressFile_read; simpl.
    destruct (Z.gtb_spec n 0); simpl; [|repeat split; auto; lia].
    destruct q; simpl in *; repeat split; auto; try lia;
      try (apply Hweak; lia);
      intros s p Hsp Hp; apply (Hlow s p); auto; lia.
  - simpl. destruct t; simpl; auto 10.
  - simpl. destruct t; simpl; auto 10.
  - simpl. unfold upload_thread_step; simpl.
    destruct t; simpl; auto 10.
    repeat split; auto; try lia. rewrite count_upload_edits_app.
    unfold count_upload_edits at 2. simpl. lia.
  - unfold up_step, up_poller_step. cbn [up_loop].
    destruct q as [| | |cu| |].
    1: by (simpl; destruct done; simpl; repeat split; auto; try lia).
    1-2, 4-5: by (simpl; repeat split; auto; try lia).
    simpl.
    + unfold up_report. change (1000 >? 0) with true. cbv iota.
      cbn [up_last_update].
      destruct (percent_of cu 1000) as [p|] eqn:Hp;
        [|simpl; repeat split; auto; try lia;
          intros s p Hsp Hq; apply (Hlow s p); auto; lia].
      assert (Hrange : 0 <= p <= 100).
      { destruct (percent_of_range cu) as (p' & Hp' & ?); [unfold in_range; lia|].
        rewrite Hp in Hp'. injection Hp' as <-. lia. }
      assert (Hlp : l <= p) by (apply (Hlow cu p); [lia|done]).
      assert (Hfuture : forall s q, u <= s <= 1000 -> percent_of s 1000 = Some q ->
                                    p <= q).
      { intros s q Hsq Hq. apply (percent_of_mono cu s p q); auto; lia. }
      destruct (significant p l) eqn:Hsig.
      * unfold significant in Hsig. apply andb_prop in Hsig as [Hne Hm].
        apply negb_true_iff, Z.eqb_neq in Hne. apply Z.eqb_eq in Hm.
        assert (Hstep : l + 5 <= p).
        { apply Z.mod_divide in Hm; [|lia]. apply Z.mod_divide in Hmod; [|lia].
          destruct Hm as [a ->]. destruct Hmod as [b ->]. lia. }
        destruct (create_progress_bar p default_width) as [bar|]; simpl.
        -- repeat split; auto; try lia. rewrite count_upload_edits_app.
           unfold count_upload_edits at 2. simpl. lia.
        -- repeat split; auto; try lia.
           intros s q Hsq Hq. specialize (Hfuture s q Hsq Hq). lia.
      * simpl. repeat split; auto; try lia.
        intros s q Hsq Hq. specialize (Hfuture s q Hsq Hq). lia.
Qed.

Lemma bytes_read_nonneg evs : 0 <= bytes_read evs.
Proof.
  induction evs as [|ev evs IH]; simpl; [lia|]. destruct ev; lia.
Qed.

Lemma up_run_edits sync url name base evs c :
  up_edits_inv base (bytes_read evs) c ->
  up_edits_inv base 0 (up_run sync url 1000 name evs c).
Proof.
  revert c. induction evs as [|ev evs IH]; intros c H; simpl; [done|].
  apply IH. apply up_step_edits; [apply bytes_read_nonneg|done].
Qed.

(** X23: when [requests] reads at most the 1000 bytes of a 1000-byte
    file, the upload loop edits the status message at most 20 times,
    under every interleaving of the thread and the loop and whether the
    upload succeeds or fails. *)
Theorem upload_edits_at_most_20
  (sync : bool) (upload_url file_name : pystr) (evs : list up_event)
  (effects : list effect) :
  bytes_read evs <= 1000 ->
  count_upload_edits
    (up_effects (up_run sync upload_url 1000 file_name evs (up_init effects)))
  <= count_upload_edits effects + 20.
Proof.
  intros Hbytes.
  assert (H0 : up_edits_inv effects (bytes_read evs) (up_init effects)).
  { unfold up_edits_inv, up_seen. simpl. repeat split; try lia.
    intros s p Hs Hp.
    destruct (percent_of_range s) as (p' & Hp' & ?); [unfold in_range; lia|].
    rewrite Hp in Hp'. injection Hp' as <-. lia. }
  destruct (up_run_edits sync upload_url file_name effects evs _ H0)
    as (_ & _ & _ & _ & _ & Hl & _ & Hcount).
  lia.
Qed.

Lemma upload_edits_at_most_20_witness :
  bytes_read (upload_events world_upload_raises) <= 1000
  /\ count_upload_edits
       (up_effects (up_run true (lit "U") 1000 (lit "a.bin")
                           (upload_events world_upload_raises) (up_init [])))
     <= count_upload_edits [] + 20.
Proof.
  assert (H : bytes_read (upload_events world_upload_raises) <= 1000).
  { vm_compute. discriminate. }
  split; [exact H|].
  apply (upload_edits_at_most_20 true (lit "U") (lit "a.bin")
           (upload_events world_upload_raises) [] H).
Defined.
